(** * Phaser 3: [Phaser.Cameras.Scene2D.CameraManager]

    A shallow embedding of [src/cameras/2d/CameraManager.js] and the
    properties of its camera registry, identity allocator and frame
    dispatch.

    JavaScript objects are shared mutable references, and the manager
    compares cameras by reference ([indexOf], [===]) and writes to them
    ([camera.id = this.nextID]).  Cameras therefore live in a store
    (a finite map from references to camera objects); the [cameras]
    array and [main] hold references.  Methods are computations in a
    state monad over that store; a [TypeError] leaves the store as it
    was when the error was raised, as in JavaScript.  Calls on the
    collaborators the file [require]s but does not define (the Camera
    class, the renderer, the event emitter) are recorded in a call log,
    in the order in which they are made. *)

From Stdlib Require Import ZArith QArith List Bool Lia.
From stdpp Require Import base numbers option list gmap strings.

Local Open Scope Z_scope.

(** ** Numbers *)

(** A JavaScript number.  The manager only stores, passes on and
    compares ([alpha > 0]) such numbers; they are modelled as
    rationals. *)
Definition number : Type := Q.

(** [n > 0] on numbers. *)
Definition gt0 (n : number) : bool := negb (Qle_bool n 0%Q).

(** The abstract operation ToInt32: an integral number reduced to a
    signed 32-bit integer. *)
Definition ToInt32 (z : Z) : Z := (z + 2 ^ 31) mod 2 ^ 32 - 2 ^ 31.

(** The operator [a << b]: both operands are converted to 32 bits, the
    shift count is taken modulo 32 and the result is again a signed
    32-bit integer. *)
Definition shl (a b : Z) : Z := ToInt32 (Z.shiftl (ToInt32 a) (b mod 32)).

(** ** Objects *)

(** An object reference. *)
Definition ref : Type := nat.

(** The [bounds] key of an [InputJSONCameraObject]. *)
Record BoundsConfig : Type := mkBoundsConfig {
  bounds_x : option number;
  bounds_y : option number;
  bounds_width : option number;
  bounds_height : option number
}.

(** [InputJSONCameraObject] of the source: every key is optional. *)
Record InputJSONCameraObject : Type := mkInputJSONCameraObject {
  cfg_name : option string;
  cfg_x : option number;
  cfg_y : option number;
  cfg_width : option number;
  cfg_height : option number;
  cfg_zoom : option number;
  cfg_rotation : option number;
  cfg_roundPixels : option bool;
  cfg_scrollX : option number;
  cfg_scrollY : option number;
  cfg_visible : option bool;
  cfg_backgroundColor : option string;
  cfg_bounds : option BoundsConfig
}.

(** The parameter of [fromJSON]: one configuration object or an array
    of them. *)
Inductive CameraConfigInput : Type :=
| OneConfig (c : InputJSONCameraObject)
| ConfigArray (cs : list InputJSONCameraObject).

(** The host side of a Scene that the manager reads:
    [scene.sys.game.config.width], [scene.sys.game.config.height] and
    [scene.sys.settings.cameras] ([None] when there is no camera
    configuration). *)
Record Systems : Type := mkSystems {
  game_config_width : number;
  game_config_height : number;
  settings_cameras : option CameraConfigInput
}.

Record Scene : Type := mkScene { sys : Systems }.

(** A renderable Game Object is opaque to the manager. *)
Definition GameObject : Type := nat.

(** The members of a Camera that the manager reads or writes. *)
Module Camera.
Record t : Type := mk {
  id : Z;
  name : string;
  x : number;
  y : number;
  width : number;
  height : number;
  zoom : number;
  rotation : number;
  scrollX : number;
  scrollY : number;
  roundPixels : bool;
  visible : bool;
  alpha : number;
  inputEnabled : bool
}.

Definition set_id (v : Z) (c : t) : t :=
  mk v (name c) (x c) (y c) (width c) (height c) (zoom c) (rotation c)
     (scrollX c) (scrollY c) (roundPixels c) (visible c) (alpha c)
     (inputEnabled c).
Definition set_name (v : string) (c : t) : t :=
  mk (id c) v (x c) (y c) (width c) (height c) (zoom c) (rotation c)
     (scrollX c) (scrollY c) (roundPixels c) (visible c) (alpha c)
     (inputEnabled c).
Definition set_zoom (v : number) (c : t) : t :=
  mk (id c) (name c) (x c) (y c) (width c) (height c) v (rotation c)
     (scrollX c) (scrollY c) (roundPixels c) (visible c) (alpha c)
     (inputEnabled c).
Definition set_rotation (v : number) (c : t) : t :=
  mk (id c) (name c) (x c) (y c) (width c) (height c) (zoom c) v
     (scrollX c) (scrollY c) (roundPixels c) (visible c) (alpha c)
     (inputEnabled c).
Definition set_scrollX (v : number) (c : t) : t :=
  mk (id c) (name c) (x c) (y c) (width c) (height c) (zoom c) (rotation c)
     v (scrollY c) (roundPixels c) (visible c) (alpha c) (inputEnabled c).
Definition set_scrollY (v : number) (c : t) : t :=
  mk (id c) (name c) (x c) (y c) (width c) (height c) (zoom c) (rotation c)
     (scrollX c) v (roundPixels c) (visible c) (alpha c) (inputEnabled c).
Definition set_roundPixels (v : bool) (c : t) : t :=
  mk (id c) (name c) (x c) (y c) (width c) (height c) (zoom c) (rotation c)
     (scrollX c) (scrollY c) v (visible c) (alpha c) (inputEnabled c).
Definition set_visible (v : bool) (c : t) : t :=
  mk (id c) (name c) (x c) (y c) (width c) (height c) (zoom c) (rotation c)
     (scrollX c) (scrollY c) (roundPixels c) v (alpha c) (inputEnabled c).
End Camera.

(** A [Phaser.Input.Pointer], as far as [getCamerasBelowPointer] reads
    it. *)
Record Pointer : Type := mkPointer { pointer_x : number; pointer_y : number }.

(** The renderer, as far as [render] reads it:
    [renderer.config.resolution]. *)
Record Renderer : Type := mkRenderer { config_resolution : number }.

(** ** Collaborators *)

(** The modules the file [require]s and the objects it is handed.  The
    Camera class, the renderer and [RectangleContains] are not part of
    the file; what each call does to the camera it is made on is a
    parameter of the development.  A call changes that camera object
    only: it does not call back into the manager, whose loops do not
    guard against that. *)
Record Collaborators : Type := mkCollaborators {
  (** [new Camera(x, y, width, height)] *)
  Camera_new : number → number → number → number → Camera.t;
  Camera_setName : string → Camera.t → Camera.t;
  Camera_setScene : option Scene → Camera.t → Camera.t;
  Camera_setBackgroundColor : string → Camera.t → Camera.t;
  Camera_setBounds : number → number → number → number → Camera.t → Camera.t;
  Camera_setSize : number → number → Camera.t → Camera.t;
  Camera_preRender : number → number → Camera.t → Camera.t;
  Camera_update : number → number → Camera.t → Camera.t;
  Camera_destroy : Camera.t → Camera.t;
  (** what [renderer.render(scene, children, interpolation, camera)]
      does to [camera] *)
  Renderer_render :
    option Scene → list GameObject → number → Camera.t → Camera.t;
  (** [RectangleContains(camera, x, y)] *)
  RectangleContains : Camera.t → number → number → bool
}.

(** The signals of the Scene's event emitter that the manager uses. *)
Inductive Signal : Type :=
| sig_boot | sig_start | sig_update | sig_shutdown | sig_destroy.

(** The manager's methods, as listeners. *)
Inductive Listener : Type :=
| on_boot | on_start | on_update | on_shutdown | on_destroy.

(** A call on a collaborator. *)
Inductive Call : Type :=
| CallNew (r : ref) (x y w h : number)
| CallSetName (r : ref) (n : string)
| CallSetScene (r : ref) (s : option Scene)
| CallSetBackgroundColor (r : ref) (color : string)
| CallSetBounds (r : ref) (x y w h : number)
| CallSetSize (r : ref) (w h : number)
| CallPreRender (r : ref) (baseScale resolution : number)
| CallUpdate (r : ref) (timestep delta : number)
| CallDestroy (r : ref)
| CallRender (s : option Scene) (children : list GameObject)
             (interpolation : number) (r : ref)
| CallOn (s : Signal) (l : Listener)
| CallOnce (s : Signal) (l : Listener)
| CallOff (s : Signal) (l : Listener).

(** ** The manager object *)

Module CameraManager.
Record t : Type := mk {
  scene : option Scene;
  systems : option Systems;
  nextID : Z;
  cameras : list ref;
  main : option ref;
  baseScale : number
}.

Definition set_scene (v : option Scene) (m : t) : t :=
  mk v (systems m) (nextID m) (cameras m) (main m) (baseScale m).
Definition set_systems (v : option Systems) (m : t) : t :=
  mk (scene m) v (nextID m) (cameras m) (main m) (baseScale m).
Definition set_nextID (v : Z) (m : t) : t :=
  mk (scene m) (systems m) v (cameras m) (main m) (baseScale m).
Definition set_cameras (v : list ref) (m : t) : t :=
  mk (scene m) (systems m) (nextID m) v (main m) (baseScale m).
Definition set_main (v : option ref) (m : t) : t :=
  mk (scene m) (systems m) (nextID m) (cameras m) v (baseScale m).
End CameraManager.

(** ** Store and computations *)

Record World : Type := mkWorld {
  this : CameraManager.t;
  heap : gmap ref Camera.t;
  calls : list Call
}.

Inductive Completion (A : Type) : Type :=
| Normal (a : A)
| TypeError.
Arguments Normal {A} a.
Arguments TypeError {A}.

Definition M (A : Type) : Type := World → Completion A * World.

Definition ret {A} (a : A) : M A := λ w, (Normal a, w).

Definition bind {A B} (m : M A) (k : A → M B) : M B :=
  λ w, match m w with
       | (Normal a, w') => k a w'
       | (TypeError, w') => (TypeError, w')
       end.

Declare Scope js_scope.
Delimit Scope js_scope with js.
Notation "'var' x ':=' c1 ';' c2" := (bind c1 (λ x, c2))
  (at level 10, x name, c1 at level 100, c2 at level 200) : js_scope.
Notation "c1 ';;;' c2" := (bind c1 (λ _, c2))
  (at level 100, c2 at level 200, right associativity) : js_scope.
Local Open Scope js_scope.

Definition throw {A} : M A := λ w, (TypeError, w).

Definition get_this : M CameraManager.t := λ w, (Normal (this w), w).

Definition update_this (f : CameraManager.t → CameraManager.t) : M unit :=
  λ w, (Normal tt, mkWorld (f (this w)) (heap w) (calls w)).

(** Records a call on a collaborator. *)
Definition call (c : Call) : M unit :=
  λ w, (Normal tt, mkWorld (this w) (heap w) (calls w ++ [c])).

(** Reads the object behind a reference; a reference behind which there
    is no camera object is like a property access on [undefined]. *)
Definition deref (r : ref) : M Camera.t :=
  λ w, match heap w !! r with
       | Some c => (Normal c, w)
       | None => (TypeError, w)
       end.

(** Updates the object behind a reference in place. *)
Definition modify (r : ref) (f : Camera.t → Camera.t) : M unit :=
  λ w, match heap w !! r with
       | Some _ => (Normal tt, mkWorld (this w) (alter f r (heap w)) (calls w))
       | None => (TypeError, w)
       end.

(** Allocates a new object. *)
Definition alloc (c : Camera.t) : M ref :=
  λ w, let r := fresh (dom (heap w)) in
       (Normal r, mkWorld (this w) (<[r := c]> (heap w)) (calls w)).

(** Property access on a reference that may be [null]. *)
Definition member {A} (o : option A) : M A :=
  match o with Some a => ret a | None => throw end.

(** [for (var i = 0; i < a.length; i++) { body(a[i]) }] over an array
    that the body does not change. *)
Fixpoint for_each {A} (a : list A) (body : A → M unit) : M unit :=
  match a with
  | [] => ret tt
  | e :: a' => body e ;;; for_each a' body
  end.

(** [Array.prototype.indexOf], with [-1] for an absent element. *)
Fixpoint indexOf (a : list ref) (r : ref) : Z :=
  match a with
  | [] => -1
  | e :: a' =>
      if decide (e = r) then 0
      else let i := indexOf a' r in if decide (i = -1) then -1 else i + 1
  end.

(** Modelled from the spec: [GetFastValue(source, key, defaultValue)]
    of [utils/object/GetFastValue], which is not among the sources, is
    a key lookup with a default: the value of the key when the object
    has it, the default otherwise.  [value] is the key as read from the
    object. *)
Definition GetFastValue {A} (value : option A) (defaultValue : A) : A :=
  from_option (λ v, v) defaultValue value.

(** ** The methods of [CameraManager] *)

Section Methods.
Context (ext : Collaborators).

Import CameraManager.

(** A method call on the camera behind [r]: the call is recorded and
    the camera object updated by what the method does to it. *)
Definition invoke (r : ref) (c : Call) (f : Camera.t → Camera.t) : M unit :=
  var _ := deref r;
  call c ;;;
  modify r f.

(** [function CameraManager (scene)] *)
Definition constructor (scene : Scene) : M unit :=
  update_this (λ _, mk (Some scene) (Some (sys scene)) 1 [] None 1%Q) ;;;
  call (CallOnce sig_boot on_boot) ;;;
  call (CallOn sig_start on_start).

(** [this.scene.sys.game.config], a [TypeError] when [this.scene] is
    [null]. *)
Definition game_config : M Systems :=
  var m := get_this;
  var s := member (scene m);
  ret (sys s).

Definition add (x y width height : option number) (makeMain : option bool)
    (name : option string) : M ref :=
  let x := default 0%Q x in
  let y := default 0%Q y in
  var width :=
    match width with
    | Some w => ret w
    | None => var c := game_config; ret (game_config_width c)
    end;
  var height :=
    match height with
    | Some h => ret h
    | None => var c := game_config; ret (game_config_height c)
    end;
  let makeMain := default false makeMain in
  let name := default EmptyString name in
  var camera := alloc (Camera_new ext x y width height);
  call (CallNew camera x y width height) ;;;
  invoke camera (CallSetName camera name) (Camera_setName ext name) ;;;
  var m := get_this;
  invoke camera (CallSetScene camera (scene m)) (Camera_setScene ext (scene m)) ;;;
  update_this (λ m, set_cameras (cameras m ++ [camera]) m) ;;;
  (if makeMain then update_this (set_main (Some camera)) else ret tt) ;;;
  var m := get_this;
  modify camera (Camera.set_id (nextID m)) ;;;
  update_this (λ m, set_nextID (shl (nextID m) 1) m) ;;;
  ret camera.

(** The result is [None] for [null]. *)
Definition addExisting (camera : ref) (makeMain : option bool)
    : M (option ref) :=
  let makeMain := default false makeMain in
  var m := get_this;
  let index := indexOf (cameras m) camera in
  if decide (index = -1) then
    update_this (λ m, set_cameras (cameras m ++ [camera]) m) ;;;
    var m := get_this;
    modify camera (Camera.set_id (nextID m)) ;;;
    update_this (λ m, set_nextID (shl (nextID m) 1) m) ;;;
    (if makeMain then update_this (set_main (Some camera)) else ret tt) ;;;
    ret (Some camera)
  else ret None.

(** The body of the loop of [fromJSON]. *)
Definition fromJSON_body (gameWidth gameHeight : number)
    (cameraConfig : InputJSONCameraObject) : M unit :=
  let x := GetFastValue (cfg_x cameraConfig) 0%Q in
  let y := GetFastValue (cfg_y cameraConfig) 0%Q in
  let width := GetFastValue (cfg_width cameraConfig) gameWidth in
  let height := GetFastValue (cfg_height cameraConfig) gameHeight in
  var camera := add (Some x) (Some y) (Some width) (Some height) None None;
  modify camera (Camera.set_name (GetFastValue (cfg_name cameraConfig) EmptyString)) ;;;
  modify camera (Camera.set_zoom (GetFastValue (cfg_zoom cameraConfig) 1%Q)) ;;;
  modify camera (Camera.set_rotation (GetFastValue (cfg_rotation cameraConfig) 0%Q)) ;;;
  modify camera (Camera.set_scrollX (GetFastValue (cfg_scrollX cameraConfig) 0%Q)) ;;;
  modify camera (Camera.set_scrollY (GetFastValue (cfg_scrollY cameraConfig) 0%Q)) ;;;
  modify camera (Camera.set_roundPixels (GetFastValue (cfg_roundPixels cameraConfig) false)) ;;;
  modify camera (Camera.set_visible (GetFastValue (cfg_visible cameraConfig) true)) ;;;
  (* [if (backgroundColor)]: [false] and the empty string are falsy *)
  match cfg_backgroundColor cameraConfig with
  | Some (String a s) =>
      let backgroundColor := String a s in
      invoke camera (CallSetBackgroundColor camera backgroundColor)
             (Camera_setBackgroundColor ext backgroundColor)
  | _ => ret tt
  end ;;;
  match cfg_bounds cameraConfig with
  | Some boundsConfig =>
      let bx := GetFastValue (bounds_x boundsConfig) 0%Q in
      let by_ := GetFastValue (bounds_y boundsConfig) 0%Q in
      let bwidth := GetFastValue (bounds_width boundsConfig) gameWidth in
      let bheight := GetFastValue (bounds_height boundsConfig) gameHeight in
      invoke camera (CallSetBounds camera bx by_ bwidth bheight)
             (Camera_setBounds ext bx by_ bwidth bheight)
  | None => ret tt
  end.

(** The result [this] is not modelled. *)
Definition fromJSON (config : CameraConfigInput) : M unit :=
  let config :=
    match config with
    | ConfigArray cs => cs
    | OneConfig c => [c]
    end in
  var c := game_config;
  let gameWidth := game_config_width c in
  let gameHeight := game_config_height c in
  for_each config (fromJSON_body gameWidth gameHeight).

Definition boot : M unit :=
  var m := get_this;
  var sys := member (systems m);
  match settings_cameras sys with
  | Some config => fromJSON config
  | None => var _ := add None None None None None None; ret tt
  end ;;;
  update_this (λ m, set_main (cameras m !! 0%nat) m) ;;;
  var m := get_this;
  var _ := member (systems m);
  call (CallOnce sig_destroy on_destroy).

Definition start : M unit :=
  var m := get_this;
  (if main m is None then boot else ret tt) ;;;
  var m := get_this;
  var _ := member (systems m);
  call (CallOn sig_update on_update) ;;;
  call (CallOnce sig_shutdown on_shutdown).

Fixpoint getCamera_loop (cameras : list ref) (name : string)
    : M (option ref) :=
  match cameras with
  | [] => ret None
  | r :: cameras' =>
      var c := deref r;
      if decide (Camera.name c = name) then ret (Some r)
      else getCamera_loop cameras' name
  end.

Definition getCamera (name : string) : M (option ref) :=
  var m := get_this;
  getCamera_loop (cameras m) name.

(** [output.unshift(camera)] puts the camera in front. *)
Fixpoint getCamerasBelowPointer_loop (cameras : list ref) (x y : number)
    (output : list ref) : M (list ref) :=
  match cameras with
  | [] => ret output
  | camera :: cameras' =>
      var c := deref camera;
      if Camera.visible c && Camera.inputEnabled c
         && RectangleContains ext c x y
      then getCamerasBelowPointer_loop cameras' x y (camera :: output)
      else getCamerasBelowPointer_loop cameras' x y output
  end.

Definition getCamerasBelowPointer (pointer : Pointer) : M (list ref) :=
  var m := get_this;
  let x := pointer_x pointer in
  let y := pointer_y pointer in
  getCamerasBelowPointer_loop (cameras m) x y [].

(** [splice(cameraIndex, 1)] deletes the element at the index. *)
Definition remove (camera : ref) : M unit :=
  var m := get_this;
  let cameraIndex := indexOf (cameras m) camera in
  if bool_decide (cameraIndex >= 0) && bool_decide (Z.of_nat (length (cameras m)) > 1)
  then
    update_this (λ m, set_cameras (delete (Z.to_nat cameraIndex) (cameras m)) m) ;;;
    var m := get_this;
    if decide (main m = Some camera)
    then update_this (λ m, set_main (cameras m !! 0%nat) m)
    else ret tt
  else ret tt.

Definition render (renderer : Renderer) (children : list GameObject)
    (interpolation : number) : M unit :=
  var m := get_this;
  let scene := scene m in
  let cameras := cameras m in
  let baseScale := baseScale m in
  let resolution := config_resolution renderer in
  for_each cameras (λ camera,
    var c := deref camera;
    if Camera.visible c && gt0 (Camera.alpha c) then
      invoke camera (CallPreRender camera baseScale resolution)
             (Camera_preRender ext baseScale resolution) ;;;
      invoke camera (CallRender scene children interpolation camera)
             (Renderer_render ext scene children interpolation)
    else ret tt).

(** The result is the value of [this.main]. *)
Definition resetAll : M (option ref) :=
  var m := get_this;
  for_each (cameras m) (λ r, invoke r (CallDestroy r) (Camera_destroy ext)) ;;;
  update_this (set_cameras []) ;;;
  update_this (set_nextID 1) ;;;
  var camera := add None None None None None None;
  update_this (set_main (Some camera)) ;;;
  var m := get_this;
  ret (main m).

Definition update (timestep delta : number) : M unit :=
  var m := get_this;
  for_each (cameras m) (λ r,
    invoke r (CallUpdate r timestep delta) (Camera_update ext timestep delta)).

Definition resize (width height : number) : M unit :=
  var m := get_this;
  for_each (cameras m) (λ r,
    invoke r (CallSetSize r width height) (Camera_setSize ext width height)).

Definition shutdown : M unit :=
  update_this (set_main None) ;;;
  var m := get_this;
  for_each (cameras m) (λ r, invoke r (CallDestroy r) (Camera_destroy ext)) ;;;
  update_this (set_cameras []) ;;;
  var m := get_this;
  var _ := member (systems m);
  call (CallOff sig_update on_update) ;;;
  call (CallOff sig_shutdown on_shutdown).

Definition destroy : M unit :=
  shutdown ;;;
  var m := get_this;
  var _ := member (scene m);
  call (CallOff sig_start on_start) ;;;
  update_this (set_scene None) ;;;
  update_this (set_systems None).

(** The getter of [camera1] to [camera10]: [this.cameras[i]], which is
    [undefined] past the end of the array. *)
Definition camera_getter (i : nat) : M (option ref) :=
  var m := get_this;
  ret (cameras m !! i).

Definition camera2 : M (option ref) := camera_getter 1.
Definition camera3 : M (option ref) := camera_getter 2.
Definition camera4 : M (option ref) := camera_getter 3.
Definition camera5 : M (option ref) := camera_getter 4.
Definition camera6 : M (option ref) := camera_getter 5.
Definition camera7 : M (option ref) := camera_getter 6.
Definition camera8 : M (option ref) := camera_getter 7.
Definition camera9 : M (option ref) := camera_getter 8.
Definition camera10 : M (option ref) := camera_getter 9.

End Methods.

(** ** The interface of the manager as a program sees it *)

(** What a program holding the manager and some cameras can do: call
    one of the manager's methods, construct a camera of its own, or
    change a camera it holds. *)
Inductive Op : Type :=
| OpNewCamera (x y width height : number)
| OpChangeCamera (camera : ref) (f : Camera.t → Camera.t)
| OpAdd (x y width height : option number) (makeMain : option bool)
        (name : option string)
| OpAddExisting (camera : ref) (makeMain : option bool)
| OpFromJSON (config : CameraConfigInput)
| OpGetCamera (name : string)
| OpGetCamerasBelowPointer (pointer : Pointer)
| OpRemove (camera : ref)
| OpRender (renderer : Renderer) (children : list GameObject)
           (interpolation : number)
| OpResetAll
| OpUpdate (timestep delta : number)
| OpResize (width height : number)
| OpBoot
| OpStart
| OpShutdown
| OpDestroy.

(** What a call returns. *)
Inductive Value : Type :=
| VUndefined
| VCamera (camera : option ref)
| VCameras (cameras : list ref).

Section Interface.
Context (ext : Collaborators).

Definition exec (op : Op) : M Value :=
  match op with
  | OpNewCamera x y width height =>
      var r := alloc (Camera_new ext x y width height);
      call (CallNew r x y width height) ;;;
      ret (VCamera (Some r))
  | OpChangeCamera camera f => modify camera f ;;; ret VUndefined
  | OpAdd x y width height makeMain name =>
      var r := add ext x y width height makeMain name;
      ret (VCamera (Some r))
  | OpAddExisting camera makeMain =>
      var r := addExisting camera makeMain;
      ret (VCamera r)
  | OpFromJSON config => fromJSON ext config ;;; ret VUndefined
  | OpGetCamera name => var r := getCamera name; ret (VCamera r)
  | OpGetCamerasBelowPointer pointer =>
      var l := getCamerasBelowPointer ext pointer;
      ret (VCameras l)
  | OpRemove camera => remove camera ;;; ret VUndefined
  | OpRender renderer children interpolation =>
      render ext renderer children interpolation ;;; ret VUndefined
  | OpResetAll => var r := resetAll ext; ret (VCamera r)
  | OpUpdate timestep delta => update ext timestep delta ;;; ret VUndefined
  | OpResize width height => resize ext width height ;;; ret VUndefined
  | OpBoot => boot ext ;;; ret VUndefined
  | OpStart => start ext ;;; ret VUndefined
  | OpShutdown => shutdown ext ;;; ret VUndefined
  | OpDestroy => destroy ext ;;; ret VUndefined
  end.

(** A camera reference a program passes in is a reference to a camera
    object; [destroy] ends the life of the manager. *)
Definition op_ok (w : World) (op : Op) : Prop :=
  match op with
  | OpChangeCamera camera _ | OpAddExisting camera _ | OpRemove camera =>
      is_Some (heap w !! camera)
  | OpDestroy => False
  | _ => True
  end.

(** The state a program is left with after a sequence of operations,
    whether they return or raise. *)
Fixpoint run (ops : list Op) (w : World) : World :=
  match ops with
  | [] => w
  | op :: ops' => run ops' (exec op w).2
  end.

(** [op_ok] along a sequence of operations. *)
Fixpoint ops_ok (ops : list Op) (w : World) : Prop :=
  match ops with
  | [] => True
  | op :: ops' => op_ok w op ∧ ops_ok ops' (exec op w).2
  end.

(** The manager a Scene [scene] constructs. *)
Definition initial (scene : Scene) : World :=
  (constructor scene
     (mkWorld (CameraManager.mk None None 0 [] None 0%Q) ∅ [])).2.

(** The states of a manager in use: those a program reaches from the
    construction of the manager, before the manager is destroyed. *)
Inductive reachable : World → Prop :=
| reachable_initial scene : reachable (initial scene)
| reachable_step w op :
    reachable w → op_ok w op → reachable (exec op w).2.

(** The identity a successful registration through [add] or
    [addExisting], or the [add] of [resetAll], gave the camera that the
    call returns. *)
Definition assigned (op : Op) (o : Completion Value * World) : list Z :=
  match op, o.1 with
  | OpAdd _ _ _ _ _ _, Normal (VCamera (Some r))
  | OpAddExisting _ _, Normal (VCamera (Some r))
  | OpResetAll, Normal (VCamera (Some r)) =>
      match heap o.2 !! r with
      | Some c => [Camera.id c]
      | None => []
      end
  | _, _ => []
  end.

(** The identities assigned in a sequence of operations, in order. *)
Fixpoint assigned_ids (ops : list Op) (w : World) : list Z :=
  match ops with
  | [] => []
  | op :: ops' =>
      let o := exec op w in
      assigned op o ++ assigned_ids ops' o.2
  end.

(** The operations that register cameras inside, with calls of [add]
    of their own; [resetAll] also restarts the counter. *)
Definition registers_inside (op : Op) : bool :=
  match op with
  | OpFromJSON _ | OpResetAll | OpBoot | OpStart => true
  | _ => false
  end.

End Interface.

#[global] Instance op_ok_dec w op : Decision (op_ok w op).
Proof. destruct op; simpl; apply _. Defined.

#[global] Instance ops_ok_dec ext ops : ∀ w, Decision (ops_ok ext ops w).
Proof. induction ops as [|op ops IH]; intros w; simpl; apply _. Defined.

(** ** Predicates on states *)

(** Every element of the [cameras] array is a camera object. *)
Definition allocated (w : World) : Prop :=
  ∀ r, r ∈ CameraManager.cameras (this w) → is_Some (heap w !! r).

(** The manager still has its Scene: it has not been destroyed. *)
Definition attached (w : World) : Prop :=
  is_Some (CameraManager.scene (this w))
  ∧ is_Some (CameraManager.systems (this w)).

(** [main], when set, is an element of the [cameras] array. *)
Definition main_registered (w : World) : Prop :=
  ∀ c, CameraManager.main (this w) = Some c → c ∈ CameraManager.cameras (this w).

(** What holds of every state of a manager in use. *)
Definition consistent (w : World) : Prop :=
  attached w ∧ allocated w ∧ NoDup (CameraManager.cameras (this w))
  ∧ main_registered w.

(** [add] reads the game configuration when a width or height is not
    given, and needs the Scene for that. *)
Definition add_defined (w : World) (width height : option number) : Prop :=
  is_Some (CameraManager.scene (this w)) ∨ (is_Some width ∧ is_Some height).

(** The width and height [add] gives the new camera. *)
Definition host_width (w : World) (width : option number) : number :=
  match width, CameraManager.scene (this w) with
  | Some v, _ => v
  | None, Some s => game_config_width (sys s)
  | None, None => 0%Q
  end.

Definition host_height (w : World) (height : option number) : number :=
  match height, CameraManager.scene (this w) with
  | Some v, _ => v
  | None, Some s => game_config_height (sys s)
  | None, None => 0%Q
  end.

(** The camera object [add] leaves behind the new reference. *)
Definition added_camera (ext : Collaborators) (w : World)
    (x y width height : option number) (name : option string) : Camera.t :=
  Camera.set_id (CameraManager.nextID (this w))
    (Camera_setScene ext (CameraManager.scene (this w))
       (Camera_setName ext (default EmptyString name)
          (Camera_new ext (default 0%Q x) (default 0%Q y)
             (host_width w width) (host_height w height)))).

(** The state [add] leaves. *)
Definition added_world (ext : Collaborators) (w : World)
    (x y width height : option number) (makeMain : option bool)
    (name : option string) : World :=
  let r := fresh (dom (heap w)) in
  mkWorld
    (CameraManager.mk
       (CameraManager.scene (this w)) (CameraManager.systems (this w))
       (shl (CameraManager.nextID (this w)) 1)
       (CameraManager.cameras (this w) ++ [r])
       (if default false makeMain then Some r else CameraManager.main (this w))
       (CameraManager.baseScale (this w)))
    (<[r := added_camera ext w x y width height name]> (heap w))
    (calls w
     ++ [CallNew r (default 0%Q x) (default 0%Q y)
           (host_width w width) (host_height w height);
         CallSetName r (default EmptyString name);
         CallSetScene r (CameraManager.scene (this w))]).

(** The state [addExisting] leaves when it registers the camera. *)
Definition registered_world (w : World) (camera : ref)
    (makeMain : option bool) : World :=
  mkWorld
    (CameraManager.mk
       (CameraManager.scene (this w)) (CameraManager.systems (this w))
       (shl (CameraManager.nextID (this w)) 1)
       (CameraManager.cameras (this w) ++ [camera])
       (if default false makeMain then Some camera
        else CameraManager.main (this w))
       (CameraManager.baseScale (this w)))
    (alter (Camera.set_id (CameraManager.nextID (this w))) camera (heap w))
    (calls w).

(** The state [remove] leaves when it removes the camera. *)
Definition removed_world (w : World) (camera : ref) : World :=
  let cameras' :=
    delete (Z.to_nat (indexOf (CameraManager.cameras (this w)) camera))
      (CameraManager.cameras (this w)) in
  mkWorld
    (CameraManager.mk
       (CameraManager.scene (this w)) (CameraManager.systems (this w))
       (CameraManager.nextID (this w))
       cameras'
       (if decide (CameraManager.main (this w) = Some camera)
        then cameras' !! 0%nat
        else CameraManager.main (this w))
       (CameraManager.baseScale (this w)))
    (heap w) (calls w).

(** The camera objects after a call of [destroy] on each of [l]. *)
Definition destroyed (ext : Collaborators) (l : list ref)
    (h : gmap ref Camera.t) : gmap ref Camera.t :=
  foldl (λ h r, alter (Camera_destroy ext) r h) h l.

(** The state [shutdown] leaves when it returns. *)
Definition shut_down (ext : Collaborators) (w : World) : World :=
  mkWorld
    (CameraManager.set_cameras [] (CameraManager.set_main None (this w)))
    (destroyed ext (CameraManager.cameras (this w)) (heap w))
    (calls w
     ++ map CallDestroy (CameraManager.cameras (this w))
     ++ [CallOff sig_update on_update; CallOff sig_shutdown on_shutdown]).

(** The counter after [n] registrations: [z] shifted left [n] times. *)
Definition shifted (z : Z) (n : nat) : Z := Nat.iter n (λ z, shl z 1) z.

(** The state [resetAll] leaves when it returns. *)
Definition reset_world (ext : Collaborators) (w : World) : World :=
  let w1 :=
    added_world ext
      (mkWorld
         (CameraManager.set_nextID 1 (CameraManager.set_cameras [] (this w)))
         (destroyed ext (CameraManager.cameras (this w)) (heap w))
         (calls w ++ map CallDestroy (CameraManager.cameras (this w))))
      None None None None None None in
  mkWorld
    (CameraManager.set_main (Some (fresh (dom (heap w)))) (this w1))
    (heap w1) (calls w1).

(** ** Reasoning about computations *)

(** [m] returns from [w], with a result and a state that satisfy [Q]. *)
Definition wp {A} (m : M A) (Q : A → World → Prop) (w : World) : Prop :=
  ∃ a w', m w = (Normal a, w') ∧ Q a w'.

(** A computation that returns and leaves the manager and the set of
    camera objects as they were, given that [r] is a camera object. *)
Definition steady {A} (r : ref) (m : M A) : Prop :=
  ∀ w, is_Some (heap w !! r) →
       wp m (λ _ w', this w' = this w ∧ dom (heap w') = dom (heap w)) w.

(** [m] leaves the observation [f] of the state as it was, whether it
    returns or raises. *)
Definition keeps {A X} (f : World → X) (m : M A) : Prop :=
  ∀ w, f (m w).2 = f w.

(** The calls [m] makes all satisfy [P], whether it returns or raises. *)
Definition emits {A} (P : Call → Prop) (m : M A) : Prop :=
  ∀ w, ∃ cs, calls (m w).2 = calls w ++ cs ∧ Forall P cs.

(** [camera.visible && camera.alpha > 0] of the camera behind [r]. *)
Definition renders (h : gmap ref Camera.t) (r : ref) : bool :=
  match h !! r with
  | Some c => Camera.visible c && gt0 (Camera.alpha c)
  | None => false
  end.

(** [camera.visible && camera.inputEnabled && RectangleContains(camera, x, y)]
    of the camera behind [r]. *)
Definition below (ext : Collaborators) (h : gmap ref Camera.t)
    (pointer : Pointer) (r : ref) : bool :=
  match h !! r with
  | Some c =>
      Camera.visible c && Camera.inputEnabled c
      && RectangleContains ext c (pointer_x pointer) (pointer_y pointer)
  | None => false
  end.

(** The calls [render] makes for one camera. *)
Definition render_calls (m : CameraManager.t) (renderer : Renderer)
    (children : list GameObject) (interpolation : number) (r : ref)
    : list Call :=
  [CallPreRender r (CameraManager.baseScale m) (config_resolution renderer);
   CallRender (CameraManager.scene m) children interpolation r].

(** The calls of the frame dispatch. *)
Definition dispatch_call (c : Call) : Prop :=
  match c with
  | CallUpdate _ _ _ | CallPreRender _ _ _ | CallSetSize _ _ _
  | CallRender _ _ _ _ => True
  | _ => False
  end.

(** ** A Camera class for examples *)

(** Modelled from the spec: [geom/rectangle/Contains] is not among the
    sources; for the examples a rectangle of positive size contains the
    points from its left and top edges to its right and bottom edges. *)
Definition example_contains (c : Camera.t) (px py : number) : bool :=
  if Qle_bool (Camera.width c) 0%Q || Qle_bool (Camera.height c) 0%Q
  then false
  else Qle_bool (Camera.x c) px
       && Qle_bool px (Camera.x c + Camera.width c)%Q
       && Qle_bool (Camera.y c) py
       && Qle_bool py (Camera.y c + Camera.height c)%Q.

(** Modelled from the spec: the Camera class and the renderer are not
    among the sources; this instance stands for them in the examples.
    A camera is created visible, opaque, unnamed, with input enabled
    and the identity 0; [setName] and [setSize] set the members, the
    other methods leave alone the members the manager reads. *)
Definition example_ext : Collaborators := {|
  Camera_new x y w h :=
    Camera.mk 0 EmptyString x y w h 1%Q 0%Q 0%Q 0%Q false true 1%Q true;
  Camera_setName n c := Camera.set_name n c;
  Camera_setScene _ c := c;
  Camera_setBackgroundColor _ c := c;
  Camera_setBounds _ _ _ _ c := c;
  Camera_setSize w h c :=
    Camera.mk (Camera.id c) (Camera.name c) (Camera.x c) (Camera.y c) w h
      (Camera.zoom c) (Camera.rotation c) (Camera.scrollX c)
      (Camera.scrollY c) (Camera.roundPixels c) (Camera.visible c)
      (Camera.alpha c) (Camera.inputEnabled c);
  Camera_preRender _ _ c := c;
  Camera_update _ _ c := c;
  Camera_destroy c := c;
  Renderer_render _ _ _ c := c;
  RectangleContains := example_contains
|}.

(** A Scene of an 800 by 600 game with no camera configuration. *)
Definition example_scene : Scene :=
  mkScene (mkSystems 800%Q 600%Q None).


(** [n] calls of [add()]. *)
Definition adds (n : nat) : list Op :=
  replicate n (OpAdd None None None None None None).

(** [camera.alpha = 0] *)
Definition transparent (c : Camera.t) : Camera.t :=
  Camera.mk (Camera.id c) (Camera.name c) (Camera.x c) (Camera.y c)
    (Camera.width c) (Camera.height c) (Camera.zoom c) (Camera.rotation c)
    (Camera.scrollX c) (Camera.scrollY c) (Camera.roundPixels c)
    (Camera.visible c) 0%Q (Camera.inputEnabled c).

(** A booted manager with four cameras, the second of them hidden with
    [camera.visible = false] and the fourth transparent. *)
Definition four_cameras : World :=
  run example_ext
    [OpBoot;
     OpAdd None None None None None None;
     OpAdd (Some 100%Q) (Some 100%Q) (Some 200%Q) (Some 200%Q) None None;
     OpAdd None None None None None None;
     OpChangeCamera 1%nat (Camera.set_visible false);
     OpChangeCamera 3%nat transparent]
    (initial example_scene).

(** A booted manager and a camera the program made itself, with [new
    Camera(0, 0, 100, 100)]. *)
Definition own_camera : World :=
  run example_ext [OpBoot; OpNewCamera 0%Q 0%Q 100%Q 100%Q]
    (initial example_scene).

(** Thirty-one registrations through [add] and [addExisting], with
    removals in between and one camera registered twice. *)
Definition registrations : list Op :=
  adds 3
  ++ [OpRemove 1%nat; OpNewCamera 0%Q 0%Q 100%Q 100%Q;
      OpAddExisting 3%nat None; OpRemove 3%nat; OpAddExisting 3%nat None]
  ++ adds 26.


(** A manager booted, shut down, and then given a camera with [add()]. *)
Definition shut_down_then_add : World :=
  run example_ext [OpBoot; OpShutdown; OpAdd None None None None None None]
    (initial example_scene).

(** A manager after thirty calls of [add()]. *)
Definition thirty_cameras : World :=
  run example_ext (adds 30) (initial example_scene).

(** ** More predicates on states and computations *)

(** [cameras[i].name === name] of the camera behind [r]. *)
Definition named (h : gmap ref Camera.t) (name : string) (r : ref) : bool :=
  match h !! r with
  | Some c => bool_decide (Camera.name c = name)
  | None => false
  end.

(** The configuration objects [fromJSON] goes through. *)
Definition config_list (config : CameraConfigInput)
    : list InputJSONCameraObject :=
  match config with
  | ConfigArray cs => cs
  | OneConfig c => [c]
  end.

(** The number of cameras [boot] creates. *)
Definition boot_count (s : Systems) : nat :=
  match settings_cameras s with
  | Some config => length (config_list config)
  | None => 1
  end.

(** [w'] is [w] with [n] more cameras registered: new camera objects
    at the end of the array, the counter shifted [n] times, and nothing
    else of the manager and no camera object of [w] changed. *)
Definition extends (n : nat) (w w' : World) : Prop :=
  ∃ new,
    CameraManager.cameras (this w') = CameraManager.cameras (this w) ++ new
    ∧ length new = n
    ∧ (∀ r, r ∈ new → heap w !! r = None ∧ is_Some (heap w' !! r))
    ∧ (∀ r, is_Some (heap w !! r) → heap w' !! r = heap w !! r)
    ∧ CameraManager.nextID (this w')
      = shifted (CameraManager.nextID (this w)) n
    ∧ CameraManager.main (this w') = CameraManager.main (this w)
    ∧ CameraManager.scene (this w') = CameraManager.scene (this w)
    ∧ CameraManager.systems (this w') = CameraManager.systems (this w)
    ∧ CameraManager.baseScale (this w') = CameraManager.baseScale (this w)
    ∧ ∃ cs, calls w' = calls w ++ cs.

(** What [fromJSON] does to the camera it has created with [add]. *)
Definition configured (ext : Collaborators) (gameWidth gameHeight : number)
    (cameraConfig : InputJSONCameraObject) (c : Camera.t) : Camera.t :=
  let c :=
    Camera.set_visible (GetFastValue (cfg_visible cameraConfig) true)
      (Camera.set_roundPixels
         (GetFastValue (cfg_roundPixels cameraConfig) false)
         (Camera.set_scrollY (GetFastValue (cfg_scrollY cameraConfig) 0%Q)
            (Camera.set_scrollX (GetFastValue (cfg_scrollX cameraConfig) 0%Q)
               (Camera.set_rotation
                  (GetFastValue (cfg_rotation cameraConfig) 0%Q)
                  (Camera.set_zoom (GetFastValue (cfg_zoom cameraConfig) 1%Q)
                     (Camera.set_name
                        (GetFastValue (cfg_name cameraConfig) EmptyString)
                        c)))))) in
  let c :=
    match cfg_backgroundColor cameraConfig with
    | Some (String a s) => Camera_setBackgroundColor ext (String a s) c
    | _ => c
    end in
  match cfg_bounds cameraConfig with
  | Some b =>
      Camera_setBounds ext
        (GetFastValue (bounds_x b) 0%Q) (GetFastValue (bounds_y b) 0%Q)
        (GetFastValue (bounds_width b) gameWidth)
        (GetFastValue (bounds_height b) gameHeight) c
  | None => c
  end.

(** The calls [fromJSON] makes after [add], for one configuration
    object. *)
Definition configure_calls (gameWidth gameHeight : number) (r : ref)
    (cameraConfig : InputJSONCameraObject) : list Call :=
  match cfg_backgroundColor cameraConfig with
  | Some (String a c) => [CallSetBackgroundColor r (String a c)]
  | _ => []
  end
  ++ match cfg_bounds cameraConfig with
     | Some b =>
         [CallSetBounds r
            (GetFastValue (bounds_x b) 0%Q) (GetFastValue (bounds_y b) 0%Q)
            (GetFastValue (bounds_width b) gameWidth)
            (GetFastValue (bounds_height b) gameHeight)]
     | None => []
     end.

(** The calls [fromJSON] makes for one configuration object, on the
    camera [r] it creates for it. *)
Definition config_calls (s : Scene) (r : ref)
    (cameraConfig : InputJSONCameraObject) : list Call :=
  [CallNew r (default 0%Q (cfg_x cameraConfig))
     (default 0%Q (cfg_y cameraConfig))
     (default (game_config_width (sys s)) (cfg_width cameraConfig))
     (default (game_config_height (sys s)) (cfg_height cameraConfig));
   CallSetName r EmptyString;
   CallSetScene r (Some s)]
  ++ match cfg_backgroundColor cameraConfig with
     | Some (String a c) => [CallSetBackgroundColor r (String a c)]
     | _ => []
     end
  ++ match cfg_bounds cameraConfig with
     | Some b =>
         [CallSetBounds r (default 0%Q (bounds_x b)) (default 0%Q (bounds_y b))
            (default (game_config_width (sys s)) (bounds_width b))
            (default (game_config_height (sys s)) (bounds_height b))]
     | None => []
     end.

(** A manager with two cameras of the same name and one of another. *)
Definition named_cameras : World :=
  run example_ext
    [OpAdd None None None None None (Some "hud"%string);
     OpAdd None None None None None (Some "map"%string);
     OpAdd None None None None None (Some "map"%string)]
    (initial example_scene).

(** A configuration object with a position, a size and a zoom, and one
    with a name only. *)
Definition viewport_config : InputJSONCameraObject :=
  mkInputJSONCameraObject None (Some 10%Q) (Some 20%Q) (Some 100%Q)
    (Some 50%Q) (Some 2%Q) None None None None None None None.

Definition hud_config : InputJSONCameraObject :=
  mkInputJSONCameraObject (Some "hud"%string) None None None None None None
    None None None None None None.

(** A Scene whose camera configuration is an array of two objects. *)
Definition configured_scene : Scene :=
  mkScene
    (mkSystems 800%Q 600%Q (Some (ConfigArray [viewport_config; hud_config]))).

(** The camera object [fromJSON] leaves for the configuration object
    [cameraConfig], on a manager of the Scene [s] whose counter is
    [z]. *)
Definition config_camera (ext : Collaborators) (s : Scene) (z : Z)
    (cameraConfig : InputJSONCameraObject) : Camera.t :=
  configured ext (game_config_width (sys s)) (game_config_height (sys s))
    cameraConfig
    (Camera.set_id z
       (Camera_setScene ext (Some s)
          (Camera_setName ext EmptyString
             (Camera_new ext
                (default 0%Q (cfg_x cameraConfig))
                (default 0%Q (cfg_y cameraConfig))
                (default (game_config_width (sys s)) (cfg_width cameraConfig))
                (default (game_config_height (sys s))
                   (cfg_height cameraConfig)))))).

(** ** Registrations in a sequence of operations *)

(** The cameras of the array of [w'] that were not in the array of
    [w]. *)
Definition registered_since (w w' : World) : list ref :=
  List.filter (λ r, bool_decide (r ∉ CameraManager.cameras (this w)))
    (CameraManager.cameras (this w')).

(** The identities, when the operation is over, of the cameras it has
    registered, in the order of the array. *)
Definition registered (ext : Collaborators) (op : Op) (w : World)
    : list (option Z) :=
  let w' := (exec ext op w).2 in
  (λ r, Camera.id <$> heap w' !! r) <$> registered_since w w'.

(** The same for a sequence of operations. *)
Fixpoint registered_ids (ext : Collaborators) (ops : list Op) (w : World)
    : list (option Z) :=
  match ops with
  | [] => []
  | op :: ops' => registered ext op w ++ registered_ids ext ops' (exec ext op w).2
  end.

(** The number of cameras an operation is to register: one for [add]
    and [resetAll], one for [addExisting] of a camera that is not in
    the array, one for each configuration object for [fromJSON], what
    [boot] creates for [boot] and for a [start] that finds [main]
    unset. *)
Definition to_register (w : World) (op : Op) : nat :=
  match op with
  | OpAdd _ _ _ _ _ _ | OpResetAll => 1
  | OpAddExisting camera _ =>
      if decide (camera ∈ CameraManager.cameras (this w)) then 0 else 1
  | OpFromJSON config => length (config_list config)
  | OpBoot => from_option boot_count 0%nat (CameraManager.systems (this w))
  | OpStart =>
      match CameraManager.main (this w) with
      | None => from_option boot_count 0%nat (CameraManager.systems (this w))
      | Some _ => 0
      end
  | _ => 0
  end.

(** The number of cameras a sequence of operations is to register. *)
Fixpoint registrations_of (ext : Collaborators) (ops : list Op) (w : World)
    : nat :=
  match ops with
  | [] => 0
  | op :: ops' =>
      (to_register w op + registrations_of ext ops' (exec ext op w).2)%nat
  end.

(** [resetAll] restarts the counter. *)
Definition restarts (op : Op) : bool :=
  match op with
  | OpResetAll => true
  | _ => false
  end.

(** Modelled from the spec: the Camera class is not among the sources.
    The identity bit of a camera is the manager's to assign; the
    camera's own [setBackgroundColor] and [setBounds], which [fromJSON]
    calls after the assignment, do not write it. *)
Definition id_immutable (ext : Collaborators) : Prop :=
  (∀ color c, Camera.id (Camera_setBackgroundColor ext color c) = Camera.id c)
  ∧ (∀ x y width height c,
       Camera.id (Camera_setBounds ext x y width height c) = Camera.id c).

(** Twenty-seven registrations on [four_cameras], through [fromJSON],
    [addExisting], [start], [boot] and [add], with removals and a
    shutdown in between; the camera 1 is removed and registered
    again. *)
Definition mixed_registrations : list Op :=
  [OpRemove 1%nat;
   OpFromJSON (ConfigArray [viewport_config; hud_config]);
   OpNewCamera 0%Q 0%Q 100%Q 100%Q;
   OpAddExisting 6%nat None;
   OpAddExisting 0%nat None;
   OpRemove 6%nat;
   OpAddExisting 1%nat None;
   OpShutdown;
   OpStart;
   OpBoot]
  ++ adds 21.

(** A manager booted and then destroyed. *)
Definition destroyed_manager : World :=
  run example_ext [OpBoot; OpDestroy] (initial example_scene).

(** * Properties *)

Import CameraManager.

(** ** Shifts *)


Lemma ToInt32_small z : - 2 ^ 31 ≤ z < 2 ^ 31 → ToInt32 z = z.
Proof. intros H. unfold ToInt32. rewrite Z.mod_small; lia. Qed.

Lemma shl_1 z : shl z 1 = ToInt32 (2 * z).
Proof.
  unfold shl. change (1 mod 32) with 1. rewrite Z.shiftl_mul_pow2 by lia.
  unfold ToInt32. f_equal.
  rewrite (Z.mod_eq (z + 2 ^ 31) (2 ^ 32)) by lia.
  replace ((z + 2 ^ 31 - 2 ^ 32 * ((z + 2 ^ 31) `div` 2 ^ 32) - 2 ^ 31)
           * 2 ^ 1 + 2 ^ 31)
    with (2 * z + 2 ^ 31 + (- (2 * ((z + 2 ^ 31) `div` 2 ^ 32))) * 2 ^ 32)
    by lia.
  apply Z_mod_plus_full.
Qed.

Lemma shl_1_double z : - 2 ^ 30 ≤ z < 2 ^ 30 → shl z 1 = 2 * z.
Proof. intros H. rewrite shl_1. apply ToInt32_small. lia. Qed.

Lemma shl_1_pow2 k : 0 ≤ k < 30 → shl (2 ^ k) 1 = 2 ^ (k + 1).
Proof.
  intros H. rewrite Z.pow_add_r, Z.mul_comm by lia.
  apply shl_1_double. split.
  - pose proof (Z.pow_pos_nonneg 2 k). lia.
  - apply Z.pow_lt_mono_r; lia.
Qed.

(** ** Running computations *)

Lemma bind_eq {A B} (m : M A) (k : A → M B) w :
  bind m k w = match m w with
               | (Normal a, w') => k a w'
               | (TypeError, w') => (TypeError, w')
               end.
Proof. reflexivity. Qed.

Lemma bind_normal {A B} (m : M A) (k : A → M B) w a w' :
  m w = (Normal a, w') → bind m k w = k a w'.
Proof. intros H. rewrite bind_eq, H. reflexivity. Qed.

Lemma bind_throws {A B} (m : M A) (k : A → M B) w w' :
  m w = (TypeError, w') → bind m k w = (TypeError, w').
Proof. intros H. rewrite bind_eq, H. reflexivity. Qed.

Lemma bind_assoc {A B C} (m : M A) (f : A → M B) (g : B → M C) w :
  bind (bind m f) g w = bind m (λ a, bind (f a) g) w.
Proof. rewrite !bind_eq. destruct (m w) as [[a|] w']; reflexivity. Qed.

Lemma bind_ret {A B} (a : A) (k : A → M B) w : bind (ret a) k w = k a w.
Proof. reflexivity. Qed.

Lemma ret_eq {A} (a : A) w : ret a w = (Normal a, w).
Proof. reflexivity. Qed.

Lemma get_this_eq w : get_this w = (Normal (this w), w).
Proof. reflexivity. Qed.

Lemma update_this_eq f w :
  update_this f w = (Normal tt, mkWorld (f (this w)) (heap w) (calls w)).
Proof. reflexivity. Qed.

Lemma call_eq c w :
  call c w = (Normal tt, mkWorld (this w) (heap w) (calls w ++ [c])).
Proof. reflexivity. Qed.

Lemma alloc_eq c w :
  alloc c w
  = (Normal (fresh (dom (heap w))),
     mkWorld (this w) (<[fresh (dom (heap w)) := c]> (heap w)) (calls w)).
Proof. reflexivity. Qed.

Lemma deref_ok r w c : heap w !! r = Some c → deref r w = (Normal c, w).
Proof. intros H. unfold deref. by rewrite H. Qed.

Lemma deref_fails r w : heap w !! r = None → deref r w = (TypeError, w).
Proof. intros H. unfold deref. by rewrite H. Qed.

Lemma modify_ok r f w :
  is_Some (heap w !! r) →
  modify r f w = (Normal tt, mkWorld (this w) (alter f r (heap w)) (calls w)).
Proof. intros [c H]. unfold modify. by rewrite H. Qed.

Lemma modify_fails r f w : heap w !! r = None → modify r f w = (TypeError, w).
Proof. intros H. unfold modify. by rewrite H. Qed.

Lemma invoke_ok r c f w :
  is_Some (heap w !! r) →
  invoke r c f w
  = (Normal tt, mkWorld (this w) (alter f r (heap w)) (calls w ++ [c])).
Proof.
  intros [x H]. unfold invoke.
  rewrite (bind_normal _ _ _ _ _ (deref_ok _ _ _ H)).
  rewrite (bind_normal _ _ _ _ _ (call_eq _ _)).
  by rewrite modify_ok by (simpl; eauto).
Qed.

Lemma invoke_fails r c f w :
  heap w !! r = None → invoke r c f w = (TypeError, w).
Proof.
  intros H. unfold invoke.
  by rewrite (bind_throws _ _ _ _ (deref_fails _ _ H)).
Qed.

Lemma member_some {A} (a : A) w : member (Some a) w = (Normal a, w).
Proof. reflexivity. Qed.

Lemma member_none {A} w : member (@None A) w = (TypeError, w).
Proof. reflexivity. Qed.

(** Projections of a state that is written out. *)
Ltac proj :=
  cbn [this heap calls scene systems nextID cameras main baseScale
       set_scene set_systems set_nextID set_cameras set_main fst snd].

(** Runs the first statement of a computation. *)
Ltac mstep :=
  first
    [ rewrite bind_assoc
    | rewrite bind_ret
    | rewrite bind_eq;
      first
        [ rewrite get_this_eq | rewrite update_this_eq | rewrite call_eq
        | rewrite alloc_eq | rewrite member_some
        | rewrite invoke_ok
            by (proj; rewrite ?lookup_alter_eq, ?lookup_insert_eq; eauto)
        | rewrite modify_ok
            by (proj; rewrite ?lookup_alter_eq, ?lookup_insert_eq; eauto) ];
      cbv beta iota ];
  proj.

(** ** [add] *)

Lemma game_config_ok w s :
  scene (this w) = Some s → game_config w = (Normal (sys s), w).
Proof. intros H. unfold game_config. mstep. rewrite H. mstep. reflexivity. Qed.

Lemma game_config_fails w :
  scene (this w) = None → game_config w = (TypeError, w).
Proof. intros H. unfold game_config. mstep. rewrite H. reflexivity. Qed.

(** What [add] does when it returns. *)
Lemma add_normal ext w x y width height makeMain name :
  add_defined w width height →
  add ext x y width height makeMain name w
  = (Normal (fresh (dom (heap w))),
     added_world ext w x y width height makeMain name).
Proof.
  intros Hd. destruct w as [m h cs].
  unfold add, added_world, added_camera, host_width, host_height,
    add_defined in *.
  proj. cbn [this] in Hd.
  destruct width as [wd|], height as [ht|], (scene m) as [sc|] eqn:Hsc;
    try (exfalso; destruct Hd as [Hd|[Hd1 Hd2]];
         [ by apply is_Some_None in Hd
         | first [ by apply is_Some_None in Hd1
                 | by apply is_Some_None in Hd2 ] ]).
  all: cbv zeta.
  all: repeat first
         [ mstep
         | rewrite bind_eq, (game_config_ok _ sc) by done;
           cbv beta iota; proj ].
  all: destruct (default false makeMain); repeat mstep.
  all: unfold ret; rewrite !alter_insert_eq, <- !(assoc_L (++)).
  all: destruct m; simpl in *; subst; reflexivity.
Qed.

(** [add] raises a [TypeError], and does nothing else, when it needs a
    Scene that is gone. *)
Lemma add_throws ext w x y width height makeMain name :
  ¬ add_defined w width height →
  add ext x y width height makeMain name w = (TypeError, w).
Proof.
  intros Hd. unfold add_defined in Hd.
  destruct (scene (this w)) as [sc|] eqn:Hsc; [destruct Hd; left; eauto|].
  unfold add. cbv zeta.
  destruct width as [wd|].
  - destruct height as [ht|]; [destruct Hd; right; eauto|].
    mstep. mstep. by rewrite bind_eq, game_config_fails.
  - mstep. by rewrite bind_eq, game_config_fails.
Qed.

(** C1, as amended.  A call of [add] that has what it needs (the Scene,
    or both a width and a height) returns a new camera; the camera is
    appended to the [cameras] array, whose length grows by one; its
    [id] is the value [nextID] had before the call; and [nextID] becomes
    its former value shifted left by one bit as a signed 32-bit
    integer, which is double the former value as long as that value is
    in [-2^30, 2^30). *)
Theorem add_registers ext w x y width height makeMain name :
  add_defined w width height →
  ∃ r w',
    add ext x y width height makeMain name w = (Normal r, w')
    ∧ cameras (this w') = cameras (this w) ++ [r]
    ∧ length (cameras (this w')) = S (length (cameras (this w)))
    ∧ Camera.id <$> heap w' !! r = Some (nextID (this w))
    ∧ nextID (this w') = ToInt32 (2 * nextID (this w))
    ∧ (- 2 ^ 30 ≤ nextID (this w) < 2 ^ 30 →
       nextID (this w') = 2 * nextID (this w)).
Proof.
  intros Hd. eexists _, _. split; [by apply add_normal|].
  unfold added_world. proj. repeat split.
  - rewrite length_app. simpl. lia.
  - by rewrite lookup_insert_eq.
  - apply shl_1.
  - apply shl_1_double.
Qed.

Lemma add_registers_witness :
  add_defined (initial example_scene) None None
  ∧ ∃ r w',
      add example_ext None None None None None None (initial example_scene)
      = (Normal r, w')
      ∧ cameras (this w') = cameras (this (initial example_scene)) ++ [r]
      ∧ length (cameras (this w'))
        = S (length (cameras (this (initial example_scene))))
      ∧ Camera.id <$> heap w' !! r = Some (nextID (this (initial example_scene)))
      ∧ nextID (this w') = ToInt32 (2 * nextID (this (initial example_scene)))
      ∧ (- 2 ^ 30 ≤ nextID (this (initial example_scene)) < 2 ^ 30 →
         nextID (this w') = 2 * nextID (this (initial example_scene))).
Proof.
  assert (Hd : add_defined (initial example_scene) None None)
    by (left; vm_compute; eauto).
  split; [exact Hd|].
  exact (add_registers example_ext (initial example_scene)
           None None None None None None Hd).
Defined.

(** C1, as stated, fails at the thirty-first camera: the counter is
    2^30 before the call and -2^31 after it, not 2^31. *)
Lemma add_counter_not_doubled :
  (add example_ext None None None None None None thirty_cameras).1
  = Normal 30%nat
  ∧ nextID (this thirty_cameras) = 2 ^ 30
  ∧ nextID (this (add example_ext None None None None None None
                    thirty_cameras).2) = - 2 ^ 31
  ∧ nextID (this (add example_ext None None None None None None
                    thirty_cameras).2)
    ≠ 2 * nextID (this thirty_cameras).
Proof. vm_compute. repeat split; congruence. Qed.

(** ** Loops over the cameras *)

Lemma world_eta w : mkWorld (this w) (heap w) (calls w) = w.
Proof. by destruct w. Qed.

Lemma for_each_invoke l (c : ref → Call) f w :
  (∀ r, r ∈ l → is_Some (heap w !! r)) →
  for_each l (λ r, invoke r (c r) f) w
  = (Normal tt,
     mkWorld (this w) (foldl (λ h r, alter f r h) (heap w) l)
       (calls w ++ map c l)).
Proof.
  revert w. induction l as [|r l IH]; intros w Hl.
  - simpl. rewrite app_nil_r, world_eta. reflexivity.
  - cbn [for_each]. rewrite bind_eq, invoke_ok by (apply Hl; left).
    rewrite IH.
    + proj. simpl. by rewrite <- (assoc_L (++)).
    + intros r' Hr'. proj. apply lookup_alter_is_Some, Hl. by right.
Qed.

Lemma foldl_alter_dom (f : Camera.t → Camera.t) l (h : gmap ref Camera.t) :
  dom (foldl (λ h r, alter f r h) h l) = dom h.
Proof.
  revert h. induction l as [|r l IH]; intros h; [done|].
  simpl. by rewrite IH, dom_alter_L.
Qed.

Lemma renders_alter_ne h r r' f :
  r ≠ r' → renders (alter f r h) r' = renders h r'.
Proof. intros Hne. unfold renders. by rewrite lookup_alter_ne. Qed.

(** The loop of [render], over cameras that are all different. *)
Lemma render_loop ext (m m0 : CameraManager.t) renderer children interpolation l :
  ∀ h cs,
    NoDup l → (∀ r, r ∈ l → is_Some (h !! r)) →
    ∃ h',
      for_each l (λ camera,
        var c := deref camera;
        if Camera.visible c && gt0 (Camera.alpha c) then
          invoke camera
            (CallPreRender camera (baseScale m) (config_resolution renderer))
            (Camera_preRender ext (baseScale m) (config_resolution renderer)) ;;;
          invoke camera (CallRender (scene m) children interpolation camera)
            (Renderer_render ext (scene m) children interpolation)
        else ret tt) (mkWorld m0 h cs)
      = (Normal tt,
         mkWorld m0 h'
           (cs ++ flat_map (render_calls m renderer children interpolation)
                    (List.filter (renders h) l)))
      ∧ dom h' = dom h
      ∧ ∀ r, renders h r = false → h' !! r = h !! r.
Proof.
  induction l as [|r l IH]; intros h cs Hnd Hl.
  - exists h. simpl. by rewrite app_nil_r.
  - apply NoDup_cons in Hnd as [Hr Hnd].
    destruct (Hl r) as [c Hc]; [by left|].
    cbn [for_each]. rewrite bind_eq, bind_eq.
    rewrite (deref_ok r _ c) by done. cbv beta iota.
    cbn [List.filter]. unfold renders at 1. rewrite Hc.
    destruct (Camera.visible c && gt0 (Camera.alpha c)) eqn:Hv.
    + rewrite bind_eq, invoke_ok by (proj; eauto). cbv beta iota.
      rewrite invoke_ok by (proj; rewrite lookup_alter_eq, Hc; eauto).
      proj.
      edestruct (IH (alter (Renderer_render ext (scene m) children interpolation) r
                   (alter (Camera_preRender ext (baseScale m)
                             (config_resolution renderer)) r h)))
        as (h' & Heq & Hdom & Hrest); [done| |].
      { intros r' Hr'. apply lookup_alter_is_Some, lookup_alter_is_Some, Hl.
        by right. }
      rewrite (filter_ext_in _ (renders h)) in Heq.
      2:{ intros r' Hr'%list_elem_of_In.
          rewrite !renders_alter_ne; [done|congruence..]. }
      exists h'. rewrite Heq. split; [|split].
      * cbn [flat_map render_calls app].
        by rewrite <- !(assoc_L (++)).
      * by rewrite Hdom, !dom_alter_L.
      * intros r' Hf. destruct (decide (r = r')) as [<-|Hne].
        { unfold renders in Hf. rewrite Hc in Hf. congruence. }
        rewrite Hrest, !lookup_alter_ne by (rewrite ?renders_alter_ne; done).
        done.
    + rewrite ret_eq. apply IH; [done|]. intros r' Hr'. apply Hl. by right.
Qed.

(** The loop of [getCamerasBelowPointer]. *)
Lemma getCamerasBelowPointer_loop_eq ext pointer l :
  ∀ output w,
    (∀ r, r ∈ l → is_Some (heap w !! r)) →
    getCamerasBelowPointer_loop ext l (pointer_x pointer) (pointer_y pointer)
      output w
    = (Normal (rev (List.filter (below ext (heap w) pointer) l) ++ output), w).
Proof.
  induction l as [|r l IH]; intros output w Hl; [done|].
  destruct (Hl r) as [c Hc]; [by left|].
  cbn [getCamerasBelowPointer_loop List.filter].
  rewrite bind_eq, (deref_ok r w c) by done. cbv beta iota.
  unfold below at 1. rewrite Hc.
  destruct (Camera.visible c && Camera.inputEnabled c
            && RectangleContains ext c (pointer_x pointer) (pointer_y pointer)).
  - rewrite IH by (intros; apply Hl; by right).
    cbn [rev]. by rewrite <- (assoc_L (++)).
  - apply IH. intros; apply Hl; by right.
Qed.


(** ** Frame dispatch *)

Lemma allocated_Forall w :
  allocated w ↔ Forall (λ r, is_Some (heap w !! r)) (cameras (this w)).
Proof. unfold allocated. by rewrite Forall_forall. Qed.

(** C4.  [render] submits to the renderer exactly the cameras with
    [visible && alpha > 0], in the order of the [cameras] array, each
    after a call of its [preRender(baseScale, resolution)]; it makes no
    other call, and leaves the other cameras as they were. *)
Theorem render_submits_visible_cameras ext renderer children interpolation w :
  NoDup (cameras (this w)) →
  allocated w →
  ∃ h',
    render ext renderer children interpolation w
    = (Normal tt,
       mkWorld (this w) h'
         (calls w
          ++ flat_map (render_calls (this w) renderer children interpolation)
               (List.filter (renders (heap w)) (cameras (this w)))))
    ∧ ∀ r, renders (heap w) r = false → h' !! r = heap w !! r.
Proof.
  intros Hnd Hal. unfold render. rewrite bind_eq, get_this_eq.
  cbv beta iota zeta.
  destruct (render_loop ext (this w) (this w) renderer children interpolation
              (cameras (this w)) (heap w) (calls w) Hnd Hal)
    as (h' & Heq & _ & Hrest).
  exists h'. rewrite world_eta in Heq. by rewrite Heq.
Qed.

Lemma render_submits_visible_cameras_witness :
  NoDup (cameras (this four_cameras))
  ∧ allocated four_cameras
  ∧ ∃ h',
      render example_ext (mkRenderer 1%Q) [] 0%Q four_cameras
      = (Normal tt,
         mkWorld (this four_cameras) h'
           (calls four_cameras
            ++ flat_map (render_calls (this four_cameras) (mkRenderer 1%Q) [] 0%Q)
                 (List.filter (renders (heap four_cameras))
                    (cameras (this four_cameras)))))
      ∧ ∀ r, renders (heap four_cameras) r = false →
             h' !! r = heap four_cameras !! r.
Proof.
  assert (Hnd : NoDup (cameras (this four_cameras)))
    by (apply (bool_decide_unpack _); vm_compute; exact I).
  assert (Hal : allocated four_cameras)
    by (apply allocated_Forall, (bool_decide_unpack _); vm_compute; exact I).
  split; [exact Hnd|]. split; [exact Hal|].
  exact (render_submits_visible_cameras example_ext (mkRenderer 1%Q) [] 0%Q
           four_cameras Hnd Hal).
Defined.

(** Of four cameras of which one is hidden and one transparent, the
    other two are submitted, in the order of the array. *)
Example render_four_cameras :
  List.filter (renders (heap four_cameras)) (cameras (this four_cameras))
  = [0%nat; 2%nat].
Proof. by vm_compute. Qed.

(** C5.  [getCamerasBelowPointer] returns exactly the cameras with
    [visible && inputEnabled] whose rectangle contains the pointer, in
    the reverse of the order of the [cameras] array, and changes
    nothing. *)
Theorem getCamerasBelowPointer_topmost_first ext pointer w :
  allocated w →
  getCamerasBelowPointer ext pointer w
  = (Normal (rev (List.filter (below ext (heap w) pointer)
                    (cameras (this w)))), w).
Proof.
  intros Hal. unfold getCamerasBelowPointer.
  rewrite bind_eq, get_this_eq. cbv beta iota zeta.
  rewrite getCamerasBelowPointer_loop_eq by done. by rewrite app_nil_r.
Qed.

Lemma getCamerasBelowPointer_topmost_first_witness :
  allocated four_cameras
  ∧ getCamerasBelowPointer example_ext (mkPointer 150%Q 150%Q) four_cameras
    = (Normal (rev (List.filter
                      (below example_ext (heap four_cameras)
                         (mkPointer 150%Q 150%Q))
                      (cameras (this four_cameras)))), four_cameras).
Proof.
  assert (Hal : allocated four_cameras)
    by (apply allocated_Forall, (bool_decide_unpack _); vm_compute; exact I).
  split; [exact Hal|].
  exact (getCamerasBelowPointer_topmost_first example_ext
           (mkPointer 150%Q 150%Q) four_cameras Hal).
Defined.

(** The cameras below a pointer at (150, 150): the hidden one is
    left out, the last one comes first. *)
Example below_four_cameras :
  (getCamerasBelowPointer example_ext (mkPointer 150%Q 150%Q) four_cameras).1
  = Normal [3%nat; 2%nat; 0%nat].
Proof. by vm_compute. Qed.

(** A pointer outside the rectangle of the third camera. *)
Example below_four_cameras_outside :
  (getCamerasBelowPointer example_ext (mkPointer 50%Q 50%Q) four_cameras).1
  = Normal [3%nat; 0%nat].
Proof. by vm_compute. Qed.

(** ** What a computation leaves alone *)

Lemma keeps_ret {A X} (f : World → X) (a : A) : keeps f (ret a).
Proof. by intros w. Qed.

Lemma keeps_throw {A X} (f : World → X) : keeps f (@throw A).
Proof. by intros w. Qed.

Lemma keeps_bind {A B X} (f : World → X) (m : M A) (k : A → M B) :
  keeps f m → (∀ a, keeps f (k a)) → keeps f (bind m k).
Proof.
  intros Hm Hk w. rewrite bind_eq. specialize (Hm w).
  destruct (m w) as [[a|] w']; simpl in *; [by rewrite Hk|done].
Qed.

Lemma keeps_for_each {A X} (f : World → X) (l : list A) body :
  (∀ x, keeps f (body x)) → keeps f (for_each l body).
Proof.
  intros Hb. induction l as [|x l IH]; [apply keeps_ret|].
  apply keeps_bind; [apply Hb|by intros _].
Qed.

Lemma keeps_get_this {X} (f : World → X) : keeps f get_this.
Proof. by intros w. Qed.

Lemma keeps_deref {X} (f : World → X) r : keeps f (deref r).
Proof. intros w. unfold deref. by destruct (heap w !! r). Qed.

Lemma keeps_member {A X} (f : World → X) (o : option A) : keeps f (member o).
Proof. by destruct o. Qed.

Lemma keeps_if {A X} (f : World → X) (b : bool) (m1 m2 : M A) :
  keeps f m1 → keeps f m2 → keeps f (if b then m1 else m2).
Proof. by destruct b. Qed.

Lemma keeps_this_call {X} (g : CameraManager.t → X) c :
  keeps (λ w, g (this w)) (call c).
Proof. by intros w. Qed.

Lemma keeps_this_modify {X} (g : CameraManager.t → X) r f :
  keeps (λ w, g (this w)) (modify r f).
Proof. intros w. unfold modify. by destruct (heap w !! r). Qed.

Lemma keeps_this_invoke {X} (g : CameraManager.t → X) r c f :
  keeps (λ w, g (this w)) (invoke r c f).
Proof.
  apply keeps_bind; [apply keeps_deref|intros _].
  apply keeps_bind; [apply (keeps_this_call g)|intros _].
  apply (keeps_this_modify g).
Qed.

Lemma keeps_this_alloc {X} (g : CameraManager.t → X) c :
  keeps (λ w, g (this w)) (alloc c).
Proof. by intros w. Qed.

Lemma keeps_update_this {X} (g : CameraManager.t → X) f :
  (∀ m, g (f m) = g m) → keeps (λ w, g (this w)) (update_this f).
Proof. intros H w. apply H. Qed.

Lemma keeps_game_config {X} (f : World → X) : keeps f game_config.
Proof.
  apply keeps_bind; [apply keeps_get_this|intros m].
  apply keeps_bind; [apply keeps_member|intros s]. apply keeps_ret.
Qed.

Lemma keeps_this_update {X} (g : CameraManager.t → X) ext timestep delta :
  keeps (λ w, g (this w)) (update ext timestep delta).
Proof.
  apply keeps_bind; [apply keeps_get_this|intros m].
  apply keeps_for_each. intros r. apply (keeps_this_invoke g).
Qed.

Lemma keeps_this_resize {X} (g : CameraManager.t → X) ext width height :
  keeps (λ w, g (this w)) (resize ext width height).
Proof.
  apply keeps_bind; [apply keeps_get_this|intros m].
  apply keeps_for_each. intros r. apply (keeps_this_invoke g).
Qed.

Lemma keeps_this_render {X} (g : CameraManager.t → X) ext renderer children
    interpolation :
  keeps (λ w, g (this w)) (render ext renderer children interpolation).
Proof.
  apply keeps_bind; [apply keeps_get_this|intros m]. cbv zeta.
  apply keeps_for_each. intros r.
  apply keeps_bind; [apply keeps_deref|intros c].
  apply keeps_if; [|apply keeps_ret].
  apply keeps_bind; [apply (keeps_this_invoke g)|intros _].
  apply (keeps_this_invoke g).
Qed.

(** ** The calls a computation makes *)

Lemma emits_silent {A} P (m : M A) : keeps calls m → emits P m.
Proof. intros H w. exists []. by rewrite H, app_nil_r. Qed.

Lemma emits_bind {A B} P (m : M A) (k : A → M B) :
  emits P m → (∀ a, emits P (k a)) → emits P (bind m k).
Proof.
  intros Hm Hk w. rewrite bind_eq. destruct (Hm w) as (cs1 & H1 & HP1).
  destruct (m w) as [[a|] w']; simpl in *; [|by eauto].
  destruct (Hk a w') as (cs2 & H2 & HP2).
  exists (cs1 ++ cs2). rewrite H2, H1, (assoc_L (++)).
  split; [done|by apply Forall_app].
Qed.

Lemma emits_for_each {A} P (l : list A) body :
  (∀ x, emits P (body x)) → emits P (for_each l body).
Proof.
  intros Hb. induction l as [|x l IH]; [by apply emits_silent|].
  apply emits_bind; [apply Hb|by intros _].
Qed.

Lemma emits_call (P : Call → Prop) c : P c → emits P (call c).
Proof. intros H w. exists [c]. split; [done|by constructor]. Qed.

Lemma keeps_calls_modify r f : keeps calls (modify r f).
Proof. intros w. unfold modify. by destruct (heap w !! r). Qed.

Lemma emits_invoke (P : Call → Prop) r c f : P c → emits P (invoke r c f).
Proof.
  intros H. apply emits_bind; [apply emits_silent, keeps_deref|intros _].
  apply emits_bind; [by apply emits_call|intros _].
  apply emits_silent, keeps_calls_modify.
Qed.

(** C10.  [update], [render] and [resize] leave the manager object as
    it was (the [cameras] array, [main], [nextID] and the rest), and
    the only calls they make are [update], [preRender] and [setSize] on
    cameras and submissions to the renderer. *)
Theorem dispatch_leaves_registry ext w timestep delta renderer children
    interpolation width height :
  (this (update ext timestep delta w).2 = this w
   ∧ this (render ext renderer children interpolation w).2 = this w
   ∧ this (resize ext width height w).2 = this w)
  ∧ (∃ cs, calls (update ext timestep delta w).2 = calls w ++ cs
           ∧ Forall dispatch_call cs)
  ∧ (∃ cs, calls (render ext renderer children interpolation w).2
           = calls w ++ cs
           ∧ Forall dispatch_call cs)
  ∧ (∃ cs, calls (resize ext width height w).2 = calls w ++ cs
           ∧ Forall dispatch_call cs).
Proof.
  split; [split; [|split]|split; [|split]].
  - apply (keeps_this_update (λ m, m)).
  - apply (keeps_this_render (λ m, m)).
  - apply (keeps_this_resize (λ m, m)).
  - revert w. change (emits dispatch_call (update ext timestep delta)).
    apply emits_bind; [apply emits_silent, keeps_get_this|intros m].
    apply emits_for_each. intros r. by apply emits_invoke.
  - revert w.
    change (emits dispatch_call (render ext renderer children interpolation)).
    apply emits_bind; [apply emits_silent, keeps_get_this|intros m].
    cbv zeta. apply emits_for_each. intros r.
    apply emits_bind; [apply emits_silent, keeps_deref|intros c].
    destruct (Camera.visible c && gt0 (Camera.alpha c));
      [|by apply emits_silent].
    apply emits_bind; [by apply emits_invoke|intros _].
    by apply emits_invoke.
  - revert w. change (emits dispatch_call (resize ext width height)).
    apply emits_bind; [apply emits_silent, keeps_get_this|intros m].
    apply emits_for_each. intros r. by apply emits_invoke.
Qed.


(** ** [indexOf] *)

Lemma indexOf_ge l r : -1 ≤ indexOf l r.
Proof.
  induction l as [|e l IH]; simpl; [lia|].
  destruct (decide (e = r)); [lia|]. destruct (decide (indexOf l r = -1)); lia.
Qed.

Lemma indexOf_absent l r : indexOf l r = -1 ↔ r ∉ l.
Proof.
  induction l as [|e l IH]; simpl.
  - split; [intros _; apply not_elem_of_nil|done].
  - rewrite not_elem_of_cons. destruct (decide (e = r)) as [->|Hne].
    + split; [lia|]. by intros [? _].
    + destruct (decide (indexOf l r = -1)) as [Heq|Hneq].
      * split; [|done]. intros _. split; [done|]. by apply IH.
      * pose proof (indexOf_ge l r) as Hge. split; [lia|].
        intros [_ Hr]. by apply IH in Hr.
Qed.

Lemma indexOf_present l r :
  r ∈ l →
  0 ≤ indexOf l r < Z.of_nat (length l)
  ∧ l !! Z.to_nat (indexOf l r) = Some r.
Proof.
  induction l as [|e l IH]; [by intros ?%elem_of_nil|].
  intros Hin. simpl. destruct (decide (e = r)) as [->|Hne].
  - split; [lia|done].
  - apply elem_of_cons in Hin as [?|Hin]; [congruence|].
    destruct (IH Hin) as [Hr Hl].
    destruct (decide (indexOf l r = -1)); [lia|].
    split; [lia|].
    replace (Z.to_nat (indexOf l r + 1)) with (S (Z.to_nat (indexOf l r)))
      by lia.
    done.
Qed.

(** ** [remove] *)

Lemma remove_ignored w camera :
  camera ∉ cameras (this w) ∨ cameras (this w) = [camera] →
  remove camera w = (Normal tt, w).
Proof.
  intros H. unfold remove. rewrite bind_eq, get_this_eq. cbv beta iota zeta.
  destruct H as [H|H].
  - apply indexOf_absent in H. rewrite H.
    rewrite bool_decide_eq_false_2 by lia. done.
  - rewrite H. simpl length.
    rewrite (bool_decide_eq_false_2 (Z.of_nat 1 > 1)) by lia.
    by rewrite andb_false_r.
Qed.

Lemma remove_removes w camera :
  camera ∈ cameras (this w) →
  (2 ≤ length (cameras (this w)))%nat →
  remove camera w = (Normal tt, removed_world w camera).
Proof.
  intros Hin Hlen. unfold remove, removed_world.
  rewrite bind_eq, get_this_eq. cbv beta iota zeta.
  destruct (indexOf_present _ _ Hin) as [Hi _].
  rewrite !bool_decide_eq_true_2 by lia. cbn [andb].
  mstep. mstep.
  destruct (decide (main (this w) = Some camera)) as [Hm|Hm].
  - rewrite update_this_eq. proj. reflexivity.
  - rewrite ret_eq. by destruct w as [[] ? ?].
Qed.

(** C6.  [remove] never raises, and never calls anything (so not the
    camera's [destroy]) nor touches a camera object; and for a camera
    that is not in the [cameras] array, or is the only one in it, the
    call changes nothing at all. *)
Theorem remove_invalid_is_ignored w camera :
  (remove camera w).1 = Normal tt
  ∧ calls (remove camera w).2 = calls w
  ∧ heap (remove camera w).2 = heap w
  ∧ (camera ∉ cameras (this w) ∨ cameras (this w) = [camera] →
     remove camera w = (Normal tt, w)).
Proof.
  assert (Hcases :
    remove camera w = (Normal tt, w)
    ∨ remove camera w = (Normal tt, removed_world w camera)).
  { destruct (decide (camera ∈ cameras (this w))) as [Hin|Hin].
    - destruct (decide (2 ≤ length (cameras (this w)))%nat) as [Hl|Hl].
      + right. by apply remove_removes.
      + left. apply remove_ignored. right.
        destruct (cameras (this w)) as [|c [|c' l]]; simpl in *.
        * by apply elem_of_nil in Hin.
        * by apply list_elem_of_singleton in Hin as ->.
        * lia.
    - left. apply remove_ignored. by left. }
  split; [|split; [|split]].
  - by destruct Hcases as [-> | ->].
  - by destruct Hcases as [-> | ->].
  - by destruct Hcases as [-> | ->].
  - apply remove_ignored.
Qed.

Lemma remove_invalid_is_ignored_witness :
  (7%nat ∉ cameras (this four_cameras)
   ∨ cameras (this four_cameras) = [7%nat])
  ∧ remove 7%nat four_cameras = (Normal tt, four_cameras).
Proof.
  assert (H : 7%nat ∉ cameras (this four_cameras)
              ∨ cameras (this four_cameras) = [7%nat])
    by (left; apply (bool_decide_unpack _); vm_compute; exact I).
  split; [exact H|].
  exact (proj2 (proj2 (proj2 (remove_invalid_is_ignored four_cameras 7%nat))) H).
Defined.

(** [remove] on the only camera of a booted manager. *)
Example remove_sole_camera :
  let w := run example_ext [OpBoot] (initial example_scene) in
  cameras (this w) = [0%nat] ∧ remove 0%nat w = (Normal tt, w).
Proof.
  split; [by vm_compute|]. apply remove_ignored. right. by vm_compute.
Qed.

(** ** [addExisting] *)

Lemma addExisting_present w camera makeMain :
  camera ∈ cameras (this w) →
  addExisting camera makeMain w = (Normal None, w).
Proof.
  intros Hin. unfold addExisting. cbv zeta.
  rewrite bind_eq, get_this_eq. cbv beta iota.
  destruct (decide (indexOf (cameras (this w)) camera = -1)) as [H|H]; [|done].
  by apply indexOf_absent in H.
Qed.

Lemma addExisting_absent w camera makeMain :
  camera ∉ cameras (this w) →
  is_Some (heap w !! camera) →
  addExisting camera makeMain w
  = (Normal (Some camera), registered_world w camera makeMain).
Proof.
  intros Hin Hal. unfold addExisting, registered_world. cbv zeta.
  rewrite bind_eq, get_this_eq. cbv beta iota.
  destruct (decide (indexOf (cameras (this w)) camera = -1)) as [H|H].
  2:{ by apply indexOf_absent in Hin. }
  do 4 mstep.
  destruct (default false makeMain); mstep; by rewrite ret_eq.
Qed.

(** [addExisting] of a reference behind which there is no camera
    object: the reference is pushed, then the assignment of the [id]
    raises. *)
Lemma addExisting_dangling w camera makeMain :
  camera ∉ cameras (this w) →
  heap w !! camera = None →
  addExisting camera makeMain w
  = (TypeError,
     mkWorld (set_cameras (cameras (this w) ++ [camera]) (this w))
       (heap w) (calls w)).
Proof.
  intros Hin Hal. unfold addExisting. cbv zeta.
  rewrite bind_eq, get_this_eq. cbv beta iota.
  destruct (decide (indexOf (cameras (this w)) camera = -1)) as [H|H].
  2:{ by apply indexOf_absent in Hin. }
  do 2 mstep. by rewrite bind_eq, modify_fails.
Qed.

(** C7.  [addExisting] of a camera that is in the [cameras] array
    returns [null] and changes nothing; so of two calls in a row for a
    camera that was not in the array, the first returns the camera, the
    second [null], and the array is one element longer. *)
Theorem addExisting_rejects_duplicates w camera makeMain makeMain' :
  (camera ∈ cameras (this w) →
   addExisting camera makeMain w = (Normal None, w))
  ∧ (camera ∉ cameras (this w) →
     is_Some (heap w !! camera) →
     ∃ w1,
       addExisting camera makeMain w = (Normal (Some camera), w1)
       ∧ addExisting camera makeMain' w1 = (Normal None, w1)
       ∧ cameras (this w1) = cameras (this w) ++ [camera]
       ∧ length (cameras (this w1)) = S (length (cameras (this w)))).
Proof.
  split; [apply addExisting_present|].
  intros Hin Hal. exists (registered_world w camera makeMain).
  split; [by apply addExisting_absent|]. split; [|split].
  - apply addExisting_present. unfold registered_world. proj.
    apply elem_of_app. right. by left.
  - done.
  - unfold registered_world. proj. rewrite length_app. simpl. lia.
Qed.


Lemma addExisting_rejects_duplicates_witness :
  (1%nat ∉ cameras (this own_camera))
  ∧ is_Some (heap own_camera !! 1%nat)
  ∧ ∃ w1,
      addExisting 1%nat None own_camera = (Normal (Some 1%nat), w1)
      ∧ addExisting 1%nat None w1 = (Normal None, w1)
      ∧ cameras (this w1) = cameras (this own_camera) ++ [1%nat]
      ∧ length (cameras (this w1)) = S (length (cameras (this own_camera))).
Proof.
  assert (Hin : 1%nat ∉ cameras (this own_camera))
    by (apply (bool_decide_unpack _); vm_compute; exact I).
  assert (Hal : is_Some (heap own_camera !! 1%nat))
    by (apply (bool_decide_unpack _); vm_compute; exact I).
  split; [exact Hin|]. split; [exact Hal|].
  exact (proj2 (addExisting_rejects_duplicates own_camera 1%nat None None)
           Hin Hal).
Defined.

(** ** [resetAll] and [shutdown] *)

Lemma destroyed_dom ext l h : dom (destroyed ext l h) = dom h.
Proof. apply foldl_alter_dom. Qed.

Lemma destroy_loop ext w :
  allocated w →
  for_each (cameras (this w))
    (λ r, invoke r (CallDestroy r) (Camera_destroy ext)) w
  = (Normal tt,
     mkWorld (this w) (destroyed ext (cameras (this w)) (heap w))
       (calls w ++ map CallDestroy (cameras (this w)))).
Proof. intros Hal. by rewrite (for_each_invoke _ CallDestroy). Qed.

(** What [resetAll] does on a manager that has its Scene. *)
Lemma resetAll_normal ext w :
  is_Some (scene (this w)) →
  allocated w →
  resetAll ext w = (Normal (Some (fresh (dom (heap w)))), reset_world ext w).
Proof.
  intros Hsc Hal. unfold resetAll, reset_world.
  rewrite bind_eq, get_this_eq. cbv beta iota.
  rewrite bind_eq, destroy_loop by done. cbv beta iota.
  mstep. mstep.
  rewrite bind_eq, add_normal by (left; done). cbv beta iota. proj.
  rewrite destroyed_dom.
  mstep. mstep. by rewrite ret_eq.
Qed.

(** C8.  [resetAll], on a manager that has its Scene, calls [destroy]
    on every camera of the [cameras] array, in order, and then creates
    one new camera: afterwards that camera is the only element of the
    array, its [id] is 1, [nextID] is 2, [main] is that camera, and the
    call returns it. *)
Theorem resetAll_leaves_one_camera ext w :
  is_Some (scene (this w)) →
  allocated w →
  ∃ r w',
    resetAll ext w = (Normal (Some r), w')
    ∧ calls w'
      = calls w ++ map CallDestroy (cameras (this w))
        ++ [CallNew r 0%Q 0%Q (host_width w None) (host_height w None);
            CallSetName r EmptyString;
            CallSetScene r (scene (this w))]
    ∧ heap w !! r = None
    ∧ cameras (this w') = [r]
    ∧ nextID (this w') = 2
    ∧ Camera.id <$> heap w' !! r = Some 1
    ∧ main (this w') = Some r.
Proof.
  intros Hsc Hal. eexists _, _. split; [by apply resetAll_normal|].
  unfold reset_world, added_world, added_camera, host_width, host_height.
  proj. rewrite destroyed_dom.
  split; [by rewrite <- (assoc_L (++))|].
  split; [apply not_elem_of_dom, is_fresh|].
  split; [done|]. split; [done|]. split; [|done].
  by rewrite lookup_insert_eq.
Qed.

Lemma resetAll_leaves_one_camera_witness :
  is_Some (scene (this four_cameras))
  ∧ allocated four_cameras
  ∧ ∃ r w',
      resetAll example_ext four_cameras = (Normal (Some r), w')
      ∧ calls w'
        = calls four_cameras ++ map CallDestroy (cameras (this four_cameras))
          ++ [CallNew r 0%Q 0%Q (host_width four_cameras None)
                (host_height four_cameras None);
              CallSetName r EmptyString;
              CallSetScene r (scene (this four_cameras))]
      ∧ heap four_cameras !! r = None
      ∧ cameras (this w') = [r]
      ∧ nextID (this w') = 2
      ∧ Camera.id <$> heap w' !! r = Some 1
      ∧ main (this w') = Some r.
Proof.
  assert (Hsc : is_Some (scene (this four_cameras)))
    by (apply (bool_decide_unpack _); vm_compute; exact I).
  assert (Hal : allocated four_cameras)
    by (apply allocated_Forall, (bool_decide_unpack _); vm_compute; exact I).
  split; [exact Hsc|]. split; [exact Hal|].
  exact (resetAll_leaves_one_camera example_ext four_cameras Hsc Hal).
Defined.

(** What [shutdown] does on a manager that has its Scene. *)
Lemma shutdown_normal ext w :
  is_Some (systems (this w)) →
  allocated w →
  shutdown ext w = (Normal tt, shut_down ext w).
Proof.
  intros [s Hs] Hal. unfold shutdown, shut_down.
  mstep. mstep.
  rewrite bind_eq, (for_each_invoke _ CallDestroy) by done.
  cbv beta iota. proj. fold (destroyed ext (cameras (this w)) (heap w)). mstep. mstep. rewrite Hs. mstep. mstep.
  rewrite call_eq. proj. by rewrite <- !(assoc_L (++)).
Qed.

(** [shutdown] on a manager that has been destroyed: the cameras are
    destroyed and forgotten, then the access to the event emitter
    raises. *)
Lemma shutdown_throws ext w :
  systems (this w) = None →
  allocated w →
  shutdown ext w
  = (TypeError,
     mkWorld (set_cameras [] (set_main None (this w)))
       (destroyed ext (cameras (this w)) (heap w))
       (calls w ++ map CallDestroy (cameras (this w)))).
Proof.
  intros Hs Hal. unfold shutdown.
  mstep. mstep.
  rewrite bind_eq, (for_each_invoke _ CallDestroy) by done.
  cbv beta iota. proj. fold (destroyed ext (cameras (this w)) (heap w)). mstep. mstep. rewrite Hs. by rewrite bind_eq.
Qed.

(** C9.  [shutdown] leaves [cameras] empty and [main] unset, and a
    second call in a row leaves the manager and the camera objects as
    the first call left them and ends as the first call ended: on a
    manager that has its Scene both calls return, and all the second
    one does is to unsubscribe again.  (On a destroyed manager both
    calls end with the [TypeError] of the access to the event
    emitter.) *)
Theorem shutdown_idempotent ext w :
  allocated w →
  cameras (this (shutdown ext w).2) = []
  ∧ main (this (shutdown ext w).2) = None
  ∧ this (shutdown ext (shutdown ext w).2).2 = this (shutdown ext w).2
  ∧ heap (shutdown ext (shutdown ext w).2).2 = heap (shutdown ext w).2
  ∧ (shutdown ext (shutdown ext w).2).1 = (shutdown ext w).1
  ∧ (is_Some (systems (this w)) →
     (shutdown ext w).1 = Normal tt
     ∧ (shutdown ext (shutdown ext w).2).1 = Normal tt
     ∧ calls (shutdown ext (shutdown ext w).2).2
       = calls (shutdown ext w).2
         ++ [CallOff sig_update on_update; CallOff sig_shutdown on_shutdown]).
Proof.
  intros Hal.
  assert (Hnil : ∀ m h cs, allocated (mkWorld (set_cameras [] m) h cs)).
  { intros m h cs r Hr. by apply elem_of_nil in Hr. }
  destruct (systems (this w)) as [s|] eqn:Hs.
  - rewrite (shutdown_normal ext w) by eauto. cbn [fst snd].
    rewrite (shutdown_normal ext (shut_down ext w))
      by (unfold shut_down; proj; first [by rewrite Hs|apply Hnil]).
    by destruct w as [[] ? ?].
  - rewrite (shutdown_throws ext w) by done. cbn [fst snd].
    rewrite shutdown_throws by (proj; first [done|apply Hnil]).
    repeat split; try done; by intros ?%is_Some_None.
Qed.

Lemma shutdown_idempotent_witness :
  allocated four_cameras
  ∧ is_Some (systems (this four_cameras))
  ∧ cameras (this (shutdown example_ext four_cameras).2) = []
  ∧ main (this (shutdown example_ext four_cameras).2) = None
  ∧ this (shutdown example_ext (shutdown example_ext four_cameras).2).2
    = this (shutdown example_ext four_cameras).2
  ∧ heap (shutdown example_ext (shutdown example_ext four_cameras).2).2
    = heap (shutdown example_ext four_cameras).2
  ∧ (shutdown example_ext (shutdown example_ext four_cameras).2).1
    = (shutdown example_ext four_cameras).1
  ∧ (shutdown example_ext four_cameras).1 = Normal tt
  ∧ (shutdown example_ext (shutdown example_ext four_cameras).2).1 = Normal tt
  ∧ calls (shutdown example_ext (shutdown example_ext four_cameras).2).2
    = calls (shutdown example_ext four_cameras).2
      ++ [CallOff sig_update on_update; CallOff sig_shutdown on_shutdown].
Proof.
  assert (Hal : allocated four_cameras)
    by (apply allocated_Forall, (bool_decide_unpack _); vm_compute; exact I).
  assert (Hs : is_Some (systems (this four_cameras)))
    by (apply (bool_decide_unpack _); vm_compute; exact I).
  destruct (shutdown_idempotent example_ext four_cameras Hal)
    as (H1 & H2 & H3 & H4 & H5 & H6).
  destruct (H6 Hs) as (H7 & H8 & H9).
  repeat (split; [assumption|]). assumption.
Defined.

(** [destroy] runs [shutdown] and lets go of the Scene. *)
Lemma destroy_normal ext w :
  attached w →
  allocated w →
  destroy ext w
  = (Normal tt,
     mkWorld
       (set_systems None (set_scene None (this (shut_down ext w))))
       (heap (shut_down ext w))
       (calls (shut_down ext w) ++ [CallOff sig_start on_start])).
Proof.
  intros [[s Hsc] Hsy] Hal. unfold destroy.
  rewrite bind_eq, shutdown_normal by done. cbv beta iota.
  mstep. unfold shut_down at 1. proj. rewrite Hsc. mstep. mstep. mstep.
  by rewrite update_this_eq.
Qed.


(** ** The identity counter *)

Lemma keeps_getCamera_loop {X} (f : World → X) l name :
  keeps f (getCamera_loop l name).
Proof.
  induction l as [|r l IH]; [apply keeps_ret|].
  apply keeps_bind; [apply keeps_deref|intros c].
  cbv beta. destruct (decide (Camera.name c = name)); [apply keeps_ret|done].
Qed.

Lemma keeps_getCamerasBelowPointer_loop {X} (f : World → X) ext l x y :
  ∀ output, keeps f (getCamerasBelowPointer_loop ext l x y output).
Proof.
  induction l as [|r l IH]; intros output; [apply keeps_ret|].
  apply keeps_bind; [apply keeps_deref|intros c].
  cbv beta. destruct (_ && _); apply IH.
Qed.

Lemma keeps_nextID_shutdown ext :
  keeps (λ w, nextID (this w)) (shutdown ext).
Proof.
  apply keeps_bind; [by apply (keeps_update_this nextID)|intros _].
  apply keeps_bind; [apply keeps_get_this|intros m].
  apply keeps_bind.
  { apply keeps_for_each. intros r. apply (keeps_this_invoke nextID). }
  intros _. apply keeps_bind; [by apply (keeps_update_this nextID)|intros _].
  apply keeps_bind; [apply keeps_get_this|intros m'].
  apply keeps_bind; [apply keeps_member|intros _].
  apply keeps_bind; [apply (keeps_this_call nextID)|intros _].
  apply (keeps_this_call nextID).
Qed.

Lemma keeps_nextID_destroy ext :
  keeps (λ w, nextID (this w)) (destroy ext).
Proof.
  apply keeps_bind; [apply keeps_nextID_shutdown|intros _].
  apply keeps_bind; [apply keeps_get_this|intros m].
  apply keeps_bind; [apply keeps_member|intros _].
  apply keeps_bind; [apply (keeps_this_call nextID)|intros _].
  apply keeps_bind; [by apply (keeps_update_this nextID)|intros _].
  by apply (keeps_update_this nextID).
Qed.

Lemma keeps_nextID_remove camera :
  keeps (λ w, nextID (this w)) (remove camera).
Proof.
  apply keeps_bind; [apply keeps_get_this|intros m]. cbv zeta.
  apply keeps_if; [|apply keeps_ret].
  apply keeps_bind; [by apply (keeps_update_this nextID)|intros _].
  apply keeps_bind; [apply keeps_get_this|intros m'].
  destruct (decide (main m' = Some camera)); [|apply keeps_ret].
  by apply (keeps_update_this nextID).
Qed.

(** One operation either registers nothing and leaves the counter, or
    registers one camera, with the counter as its identity, and shifts
    the counter. *)
Lemma exec_counter ext op w :
  registers_inside op = false →
  (assigned op (exec ext op w) = []
   ∧ nextID (this (exec ext op w).2) = nextID (this w))
  ∨ (assigned op (exec ext op w) = [nextID (this w)]
     ∧ nextID (this (exec ext op w).2) = shl (nextID (this w)) 1).
Proof.
  intros Hop.
  assert (Hkeeps : ∀ (m : M Value),
            exec ext op = m →
            keeps (λ w, nextID (this w)) m →
            assigned op (m w) = [] →
            (assigned op (exec ext op w) = []
             ∧ nextID (this (exec ext op w).2) = nextID (this w))
            ∨ (assigned op (exec ext op w) = [nextID (this w)]
               ∧ nextID (this (exec ext op w).2) = shl (nextID (this w)) 1)).
  { intros m -> Hk Ha. left. split; [done|apply Hk]. }
  destruct op; try discriminate Hop; cbn [exec].
  - (* new Camera *)
    eapply Hkeeps; [done| |done].
    apply keeps_bind; [apply (keeps_this_alloc nextID)|intros r].
    apply keeps_bind; [apply (keeps_this_call nextID)|intros _].
    apply keeps_ret.
  - eapply Hkeeps; [done| |done].
    apply keeps_bind; [apply (keeps_this_modify nextID)|intros _].
    apply keeps_ret.
  - (* add *)
    destruct (decide (is_Some (scene (this w)) ∨ is_Some width ∧ is_Some height))
      as [Hd|Hd].
    + right. rewrite bind_eq, add_normal by done. cbv beta iota.
      rewrite ret_eq. unfold assigned, added_world. proj.
      by rewrite lookup_insert_eq.
    + left. rewrite bind_eq, add_throws by done. done.
  - (* addExisting *)
    destruct (decide (camera ∈ cameras (this w))) as [Hin|Hin].
    { left. rewrite bind_eq, addExisting_present by done. done. }
    destruct (heap w !! camera) as [c|] eqn:Hc.
    + right. rewrite bind_eq, addExisting_absent by eauto. cbv beta iota.
      rewrite ret_eq. unfold assigned, registered_world. proj.
      by rewrite lookup_alter_eq, Hc.
    + left. rewrite bind_eq, addExisting_dangling by done. done.
  - eapply Hkeeps; [done| |done].
    apply keeps_bind; [|intros; apply keeps_ret].
    apply keeps_bind; [apply keeps_get_this|intros m].
    apply keeps_getCamera_loop.
  - eapply Hkeeps; [done| |done].
    apply keeps_bind; [|intros; apply keeps_ret].
    apply keeps_bind; [apply keeps_get_this|intros m].
    apply keeps_getCamerasBelowPointer_loop.
  - eapply Hkeeps; [done| |done].
    apply keeps_bind; [apply keeps_nextID_remove|intros; apply keeps_ret].
  - eapply Hkeeps; [done| |done].
    apply keeps_bind; [apply (keeps_this_render nextID)|intros; apply keeps_ret].
  - eapply Hkeeps; [done| |done].
    apply keeps_bind; [apply (keeps_this_update nextID)|intros; apply keeps_ret].
  - eapply Hkeeps; [done| |done].
    apply keeps_bind; [apply (keeps_this_resize nextID)|intros; apply keeps_ret].
  - eapply Hkeeps; [done| |done].
    apply keeps_bind; [apply keeps_nextID_shutdown|intros; apply keeps_ret].
  - eapply Hkeeps; [done| |done].
    apply keeps_bind; [apply keeps_nextID_destroy|intros; apply keeps_ret].
Qed.

Lemma shifted_S z n : shifted z (S n) = shifted (shl z 1) n.
Proof. exact (Nat.iter_succ_r n (λ z, shl z 1) z). Qed.

(** The identities assigned in a sequence of operations are the
    successive values of the counter. *)
Lemma assigned_ids_shifted ext ops :
  ∀ w,
    forallb (λ op, negb (registers_inside op)) ops = true →
    assigned_ids ext ops w
    = shifted (nextID (this w)) <$> seq 0 (length (assigned_ids ext ops w)).
Proof.
  induction ops as [|op ops IH]; intros w Hops; [done|].
  cbn [forallb] in Hops. apply andb_true_iff in Hops as [Hop Hops].
  apply negb_true_iff in Hop.
  cbn [assigned_ids]. cbv zeta.
  specialize (IH (exec ext op w).2 Hops).
  destruct (exec_counter ext op w Hop) as [[-> Hn]|[-> Hn]].
  - cbn [app]. by rewrite <- Hn.
  - cbn [app length seq fmap list_fmap]. f_equal.
    rewrite <- seq_shift, <- list_fmap_compose.
    rewrite IH at 1. rewrite Hn.
    apply list_fmap_ext. intros i j _. unfold compose. by rewrite shifted_S.
Qed.

Lemma shifted_pow2 k n :
  0 ≤ k → k + Z.of_nat n ≤ 30 → shifted (2 ^ k) n = 2 ^ (k + Z.of_nat n).
Proof.
  intros Hk. induction n as [|n IH]; intros Hn.
  - unfold shifted. simpl. f_equal. lia.
  - change (shifted (2 ^ k) (S n)) with (shl (shifted (2 ^ k) n) 1).
    rewrite IH by lia. rewrite shl_1_pow2 by lia. f_equal. lia.
Qed.

(** From a state in which the counter is [2^k], in every sequence of
    operations in which cameras are registered through [add] and
    [addExisting] only, the [i]-th identity given is [2^(k+i)], as long
    as the identities up to [2^30] last. *)
Lemma assigned_ids_pow2 ext ops w k :
  0 ≤ k →
  nextID (this w) = 2 ^ k →
  forallb (λ op, negb (registers_inside op)) ops = true →
  k + Z.of_nat (length (assigned_ids ext ops w)) ≤ 31 →
  assigned_ids ext ops w
  = (λ i, 2 ^ (k + Z.of_nat i)) <$> seq 0 (length (assigned_ids ext ops w))
  ∧ NoDup (assigned_ids ext ops w)
  ∧ ∀ camera, nextID (this (remove camera w).2) = nextID (this w).
Proof.
  intros Hk Hw Hops Hn.
  assert (Heq :
    assigned_ids ext ops w
    = (λ i, 2 ^ (k + Z.of_nat i))
      <$> seq 0 (length (assigned_ids ext ops w))).
  { rewrite (assigned_ids_shifted ext ops w Hops) at 1.
    apply list_fmap_ext. intros i j Hj%lookup_seq. rewrite Hw.
    apply shifted_pow2; [done|]. lia. }
  split; [done|]. split; [|intros camera; apply keeps_nextID_remove].
  rewrite Heq. apply NoDup_fmap_2_strong; [|apply NoDup_seq].
  intros i j _ _ Hij. apply Z.pow_inj_r in Hij; lia.
Qed.


(** The thirty-one identities of [registrations] end with [2^30]. *)
Example registrations_ids :
  length (assigned_ids example_ext registrations (initial example_scene))
  = 31%nat
  ∧ last (assigned_ids example_ext registrations (initial example_scene))
    = Some (2 ^ 30).
Proof. by vm_compute. Qed.

(** After [resetAll] the identity 1 is given a second time. *)
Example resetAll_restarts_identities :
  assigned_ids example_ext (adds 2) (initial example_scene) = [1; 2]
  ∧ Camera.id
    <$> (heap (run example_ext (adds 2 ++ [OpResetAll]) (initial example_scene))
         !! 2%nat)
    = Some 1.
Proof. by vm_compute. Qed.

(** ** Computations that return *)

Lemma wp_eq {A} (m : M A) (Q : A → World → Prop) w a w' :
  m w = (Normal a, w') → Q a w' → wp m Q w.
Proof. intros H HQ. by exists a, w'. Qed.

Lemma wp_ret {A} (a : A) (Q : A → World → Prop) w : Q a w → wp (ret a) Q w.
Proof. by apply wp_eq. Qed.

Lemma wp_bind {A B} (m : M A) (k : A → M B) (Q : B → World → Prop) w :
  wp m (λ a w', wp (k a) Q w') w → wp (bind m k) Q w.
Proof.
  intros (a & w' & Hm & b & w'' & Hk & HQ).
  exists b, w''. by rewrite (bind_normal _ _ _ _ _ Hm).
Qed.

Lemma wp_mono {A} (m : M A) (Q Q' : A → World → Prop) w :
  wp m Q w → (∀ a w', Q a w' → Q' a w') → wp m Q' w.
Proof. intros (a & w' & Hm & HQ) H. exists a, w'. eauto. Qed.

Lemma wp_for_each {A} (I : World → Prop) (l : list A) body w :
  I w →
  (∀ x w, x ∈ l → I w → wp (body x) (λ _, I) w) →
  wp (for_each l body) (λ _, I) w.
Proof.
  revert w. induction l as [|x l IH]; intros w HI Hb; [by apply wp_ret|].
  cbn [for_each]. apply wp_bind.
  eapply wp_mono; [apply Hb; [by left|done]|].
  intros [] w' HI'. apply IH; [done|]. intros y w'' Hy. apply Hb. by right.
Qed.

Lemma steady_ret {A} r (a : A) : steady r (ret a).
Proof. intros w _. by apply wp_ret. Qed.

Lemma steady_bind {A B} r (m : M A) (k : A → M B) :
  steady r m → (∀ a, steady r (k a)) → steady r (bind m k).
Proof.
  intros Hm Hk w Hr. apply wp_bind.
  eapply wp_mono; [by apply Hm|]. intros a w' [Ht Hd].
  eapply wp_mono; [apply Hk|].
  - by rewrite <- elem_of_dom, Hd, elem_of_dom.
  - intros b w'' [Ht' Hd']. split; congruence.
Qed.

Lemma steady_modify r f : steady r (modify r f).
Proof.
  intros w Hr. eapply wp_eq; [by apply modify_ok|].
  proj. by rewrite dom_alter_L.
Qed.

Lemma steady_invoke r c f : steady r (invoke r c f).
Proof.
  intros w Hr. eapply wp_eq; [by apply invoke_ok|].
  proj. by rewrite dom_alter_L.
Qed.

(** ** The states of a manager in use *)

Lemma consistent_grow w w' :
  this w' = this w →
  dom (heap w) ⊆ dom (heap w') →
  consistent w → consistent w'.
Proof.
  intros Ht Hd (Hat & Hal & Hnd & Hm).
  unfold consistent, attached, allocated, main_registered in *.
  rewrite Ht. repeat split; try tauto.
  intros r Hr. apply elem_of_dom, Hd, elem_of_dom. by apply Hal.
Qed.

Lemma consistent_frame w w' :
  this w' = this w →
  dom (heap w') = dom (heap w) →
  consistent w → consistent w'.
Proof. intros Ht Hd. apply consistent_grow; [done|]. by rewrite Hd. Qed.

Lemma consistent_fresh w :
  allocated w → fresh (dom (heap w)) ∉ cameras (this w).
Proof.
  intros Hal Hin. apply Hal, elem_of_dom in Hin. by apply is_fresh in Hin.
Qed.

Lemma added_world_consistent ext w x y width height makeMain name :
  consistent w →
  consistent (added_world ext w x y width height makeMain name).
Proof.
  intros (Hat & Hal & Hnd & Hm).
  unfold consistent, attached, allocated, main_registered, added_world.
  proj. repeat split; try apply Hat.
  - intros r [Hr|Hr%list_elem_of_singleton]%elem_of_app.
    + apply lookup_insert_is_Some'. right. by apply Hal.
    + subst r. apply lookup_insert_is_Some'. by left.
  - apply NoDup_app. split; [done|]. split; [|apply NoDup_singleton].
    intros r Hr Hr'%list_elem_of_singleton. subst r.
    by apply consistent_fresh in Hr.
  - intros c. destruct (default false makeMain).
    + intros [= <-]. apply elem_of_app. right. by left.
    + intros Hc. apply elem_of_app. left. by apply Hm.
Qed.

Lemma registered_world_consistent w camera makeMain :
  camera ∉ cameras (this w) →
  is_Some (heap w !! camera) →
  consistent w →
  consistent (registered_world w camera makeMain).
Proof.
  intros Hin Hc (Hat & Hal & Hnd & Hm).
  unfold consistent, attached, allocated, main_registered, registered_world.
  proj. repeat split; try apply Hat.
  - intros r [Hr|Hr%list_elem_of_singleton]%elem_of_app.
    + apply lookup_alter_is_Some. by apply Hal.
    + subst r. by apply lookup_alter_is_Some.
  - apply NoDup_app. split; [done|]. split; [|apply NoDup_singleton].
    intros r Hr Hr'%list_elem_of_singleton. by subst r.
  - intros c. destruct (default false makeMain).
    + intros [= <-]. apply elem_of_app. right. by left.
    + intros Hc'. apply elem_of_app. left. by apply Hm.
Qed.

Lemma removed_world_consistent w camera :
  camera ∈ cameras (this w) →
  consistent w →
  consistent (removed_world w camera)
  ∧ camera ∉ cameras (this (removed_world w camera)).
Proof.
  intros Hin (Hat & Hal & Hnd & Hm).
  destruct (indexOf_present _ _ Hin) as [_ Hi].
  pose proof (delete_Permutation _ _ _ Hi) as Hp.
  assert (Hnd' : NoDup (camera :: delete (Z.to_nat (indexOf (cameras (this w)) camera))
                                    (cameras (this w))))
    by (by rewrite <- Hp).
  apply NoDup_cons in Hnd' as [Hnin Hnd'].
  split; [|done].
  unfold consistent, attached, allocated, main_registered, removed_world.
  proj. repeat split; try apply Hat; try done.
  - intros r Hr. apply Hal. rewrite Hp. by right.
  - intros c. destruct (decide (main (this w) = Some camera)) as [Hmc|Hmc].
    + by intros ?%list_elem_of_lookup_2.
    + intros Hc. pose proof (Hm c Hc) as Hc'. rewrite Hp in Hc'.
      apply elem_of_cons in Hc' as [->|Hc']; [congruence|done].
Qed.

Lemma getCamera_loop_ok l name w :
  (∀ r, r ∈ l → is_Some (heap w !! r)) →
  ∃ o, getCamera_loop l name w = (Normal o, w).
Proof.
  induction l as [|r l IH]; intros Hl; [by eexists|].
  destruct (Hl r) as [c Hc]; [by left|].
  cbn [getCamera_loop]. rewrite bind_eq, (deref_ok r w c) by done.
  cbv beta iota. destruct (decide (Camera.name c = name)); [by eexists|].
  apply IH. intros; apply Hl; by right.
Qed.

Lemma fromJSON_body_consistent ext gameWidth gameHeight cameraConfig w :
  consistent w →
  wp (fromJSON_body ext gameWidth gameHeight cameraConfig)
     (λ _, consistent) w.
Proof.
  intros Hw. unfold fromJSON_body. cbv zeta. apply wp_bind.
  eapply wp_eq; [apply add_normal; right; eauto|].
  set (r := fresh (dom (heap w))).
  match goal with
  | |- wp ?tail _ ?w1 =>
      assert (Hs : steady r tail); [|apply (wp_mono _ _ _ _ (Hs w1 ltac:(
        unfold added_world; proj; rewrite lookup_insert_eq; eauto)))]
  end.
  - do 7 (apply steady_bind; [apply steady_modify|intros _]).
    apply steady_bind.
    + destruct (cfg_backgroundColor cameraConfig) as [[|a s]|];
        first [apply steady_ret|apply steady_invoke].
    + intros _. destruct (cfg_bounds cameraConfig);
        first [apply steady_ret|apply steady_invoke].
  - intros ? w' [Ht Hd]. eapply consistent_frame; [done..|].
    by apply added_world_consistent.
Qed.

Lemma fromJSON_consistent ext config w :
  consistent w → wp (fromJSON ext config) (λ _, consistent) w.
Proof.
  intros Hw. unfold fromJSON. cbv zeta.
  destruct Hw as ([[s Hs] Hsy] & Hw). apply wp_bind.
  eapply wp_eq; [by apply game_config_ok|].
  apply wp_for_each; [done|].
  intros c w' _ Hw'. by apply fromJSON_body_consistent.
Qed.

Lemma main_first_consistent w cs :
  consistent w →
  consistent
    (mkWorld (set_main (cameras (this w) !! 0%nat) (this w)) (heap w) cs).
Proof.
  intros (Hat & Hal & Hnd & Hm).
  unfold consistent, attached, allocated, main_registered. proj.
  repeat split; try apply Hat; try done.
  intros c. apply list_elem_of_lookup_2.
Qed.

Lemma boot_first ext w :
  consistent w →
  wp (boot ext)
     (λ _ w', consistent w' ∧ main (this w') = cameras (this w') !! 0%nat) w.
Proof.
  intros Hw. unfold boot. pose proof Hw as ([Hsc [s Hsy]] & _).
  apply wp_bind. eapply wp_eq; [apply get_this_eq|]. rewrite Hsy.
  apply wp_bind. eapply wp_eq; [apply member_some|].
  apply wp_bind.
  eapply (wp_mono _ (λ _, consistent)).
  { destruct (settings_cameras s) as [config|].
    - by apply fromJSON_consistent.
    - apply wp_bind. eapply wp_eq; [apply add_normal; by left|].
      apply wp_ret. by apply added_world_consistent. }
  intros ? w' Hw'. pose proof Hw' as ([_ [s' Hsy']] & _).
  eapply wp_eq.
  - mstep. mstep. rewrite Hsy'. mstep. apply call_eq.
  - proj. split; [by apply main_first_consistent|done].
Qed.

Lemma boot_consistent ext w :
  consistent w → wp (boot ext) (λ _, consistent) w.
Proof.
  intros Hw. eapply wp_mono; [by apply boot_first|]. by intros ? w' [? _].
Qed.

Lemma start_consistent ext w :
  consistent w → wp (start ext) (λ _, consistent) w.
Proof.
  intros Hw. unfold start.
  apply wp_bind. eapply wp_eq; [apply get_this_eq|].
  apply wp_bind.
  eapply (wp_mono _ (λ _, consistent)).
  { destruct (main (this w)); [by apply wp_ret|by apply boot_consistent]. }
  intros ? w' Hw'. pose proof Hw' as ([_ [s' Hsy']] & _).
  eapply wp_eq.
  - mstep. rewrite Hsy'. mstep. mstep. apply call_eq.
  - proj. eapply consistent_frame; [| |exact Hw']; done.
Qed.

Lemma shut_down_consistent ext w : consistent w → consistent (shut_down ext w).
Proof.
  intros (Hat & Hal & Hnd & Hm).
  unfold consistent, attached, allocated, main_registered, shut_down. proj.
  repeat split; try apply Hat; try done.
  - by intros r ?%elem_of_nil.
  - apply NoDup_nil_2.
Qed.

Lemma reset_world_consistent ext w : consistent w → consistent (reset_world ext w).
Proof.
  intros (Hat & Hal & Hnd & Hm).
  unfold consistent, attached, allocated, main_registered, reset_world,
    added_world.
  proj. rewrite destroyed_dom. repeat split; try apply Hat.
  - intros r ->%list_elem_of_singleton. by rewrite lookup_insert_eq.
  - apply NoDup_singleton.
  - intros c [= <-]. by left.
Qed.

(** Every operation returns from a state of a manager in use, and
    leaves another such state. *)
Lemma exec_consistent ext op w :
  consistent w → op_ok w op → wp (exec ext op) (λ _, consistent) w.
Proof.
  intros Hw Hop. pose proof Hw as (Hat & Hal & Hnd & Hm).
  destruct op; cbn [exec op_ok] in *.
  - eapply wp_eq; [mstep; mstep; apply ret_eq|].
    eapply consistent_grow; [| |exact Hw]; [done|]. proj.
    rewrite dom_insert_L. set_solver.
  - apply wp_bind. eapply wp_eq; [by apply modify_ok|]. apply wp_ret.
    eapply consistent_frame; [| |exact Hw]; [done|]. proj.
    by rewrite dom_alter_L.
  - apply wp_bind.
    eapply wp_eq; [apply add_normal; left; apply Hat|]. apply wp_ret.
    by apply added_world_consistent.
  - apply wp_bind.
    destruct (decide (camera ∈ cameras (this w))) as [Hin|Hin].
    + eapply wp_eq; [by apply addExisting_present|]. by apply wp_ret.
    + eapply wp_eq; [by apply addExisting_absent|]. apply wp_ret.
      by apply registered_world_consistent.
  - apply wp_bind. eapply wp_mono; [by apply fromJSON_consistent|].
    intros ? w' Hw'. by apply wp_ret.
  - apply wp_bind. unfold getCamera.
    destruct (getCamera_loop_ok (cameras (this w)) name w Hal) as [o Ho].
    eapply wp_eq; [mstep; exact Ho|]. by apply wp_ret.
  - apply wp_bind. unfold getCamerasBelowPointer.
    eapply wp_eq;
      [mstep; cbv zeta; by apply getCamerasBelowPointer_loop_eq|].
    by apply wp_ret.
  - apply wp_bind.
    destruct (decide (camera ∈ cameras (this w))) as [Hin|Hin].
    + destruct (decide (2 ≤ length (cameras (this w)))%nat) as [Hl|Hl].
      * eapply wp_eq; [by apply remove_removes|]. apply wp_ret.
        by apply removed_world_consistent.
      * eapply wp_eq; [|by apply wp_ret]. apply remove_ignored. right.
        destruct (cameras (this w)) as [|c [|c' l]]; simpl in *.
        -- by apply elem_of_nil in Hin.
        -- by apply list_elem_of_singleton in Hin as ->.
        -- lia.
    + eapply wp_eq; [|by apply wp_ret]. apply remove_ignored. by left.
  - apply wp_bind. unfold render.
    destruct (render_loop ext (this w) (this w) renderer children
                interpolation (cameras (this w)) (heap w) (calls w) Hnd Hal)
      as (h' & Heq & Hdom & _).
    rewrite world_eta in Heq.
    eapply wp_eq; [mstep; cbv zeta; exact Heq|]. apply wp_ret.
    eapply consistent_frame; [| |exact Hw]; done.
  - apply wp_bind. eapply wp_eq; [apply resetAll_normal; [apply Hat|done]|].
    apply wp_ret. by apply reset_world_consistent.
  - apply wp_bind. unfold update.
    eapply wp_eq;
      [mstep; by apply (for_each_invoke _ (λ r, CallUpdate r timestep delta))|].
    apply wp_ret. eapply consistent_frame; [| |exact Hw]; [done|]. proj.
    apply foldl_alter_dom.
  - apply wp_bind. unfold resize.
    eapply wp_eq;
      [mstep; by apply (for_each_invoke _ (λ r, CallSetSize r width height))|].
    apply wp_ret. eapply consistent_frame; [| |exact Hw]; [done|]. proj.
    apply foldl_alter_dom.
  - apply wp_bind. eapply wp_mono; [by apply boot_consistent|].
    intros ? w' Hw'. by apply wp_ret.
  - apply wp_bind. eapply wp_mono; [by apply start_consistent|].
    intros ? w' Hw'. by apply wp_ret.
  - apply wp_bind. eapply wp_eq; [apply shutdown_normal; [apply Hat|done]|].
    apply wp_ret. by apply shut_down_consistent.
  - done.
Qed.

Lemma initial_consistent scene : consistent (initial scene).
Proof.
  unfold consistent, attached, allocated, main_registered. cbn.
  repeat split; eauto.
  - by intros r ?%elem_of_nil.
  - apply NoDup_nil_2.
  - done.
Qed.

Lemma reachable_consistent ext w : reachable ext w → consistent w.
Proof.
  induction 1 as [scene|w op Hr IH Hop]; [apply initial_consistent|].
  destruct (exec_consistent ext op w IH Hop) as (a & w' & Heq & Hw').
  by rewrite Heq.
Qed.

(** In a manager in use no operation raises. *)
Lemma reachable_returns ext w op :
  reachable ext w → op_ok w op → ∃ v, (exec ext op w).1 = Normal v.
Proof.
  intros Hr Hop.
  destruct (exec_consistent ext op w (reachable_consistent ext w Hr) Hop)
    as (a & w' & Heq & _).
  exists a. by rewrite Heq.
Qed.


Lemma reachable_run ext ops :
  ∀ w, reachable ext w → ops_ok ext ops w → reachable ext (run ext ops w).
Proof.
  induction ops as [|op ops IH]; intros w Hw Hops; [done|].
  destruct Hops as [Hop Hops]. cbn [run]. apply IH; [|done].
  by apply reachable_step.
Qed.

(** ** [main] *)

Lemma four_cameras_reachable : reachable example_ext four_cameras.
Proof.
  apply reachable_run; [apply reachable_initial|].
  apply (bool_decide_unpack _). vm_compute. exact I.
Qed.

(** [remove] of the main camera of four. *)
Example remove_main_of_four :
  main (this four_cameras) = Some 0%nat
  ∧ cameras (this (remove 0%nat four_cameras).2) = [1%nat; 2%nat; 3%nat]
  ∧ main (this (remove 0%nat four_cameras).2) = Some 1%nat.
Proof. by vm_compute. Qed.


(** The same after a shutdown: [shutdown] unsets [main], and [add()]
    does not set it. *)
Example main_unset_after_shutdown :
  reachable example_ext shut_down_then_add
  ∧ cameras (this shut_down_then_add) = [1%nat]
  ∧ main (this shut_down_then_add) = None.
Proof.
  split; [|by vm_compute].
  apply reachable_run; [apply reachable_initial|].
  apply (bool_decide_unpack _). vm_compute. exact I.
Qed.



(** ** Scenarios *)

(** A manager booted with no configuration has one camera, with the
    identity 1, and it is [main]. *)
Example boot_default :
  let w := run example_ext [OpBoot] (initial example_scene) in
  cameras (this w) = [0%nat]
  ∧ main (this w) = Some 0%nat
  ∧ Camera.id <$> heap w !! 0%nat = Some 1
  ∧ nextID (this w) = 2.
Proof. by vm_compute. Qed.

(** [getCamera] returns the first of two cameras with the same name. *)
Example getCamera_first :
  let w :=
    run example_ext
      [OpAdd None None None None None (Some "x"%string);
       OpAdd None None None None None (Some "x"%string)]
      (initial example_scene) in
  (getCamera "x"%string w).1 = Normal (Some 0%nat)
  ∧ (getCamera "y"%string w).1 = Normal None.
Proof. by vm_compute. Qed.

(** [fromJSON] of two configuration objects. *)
Example fromJSON_two :
  let w :=
    run example_ext
      [OpFromJSON
         (ConfigArray
            [mkInputJSONCameraObject None (Some 10%Q) (Some 20%Q)
               (Some 100%Q) (Some 50%Q) (Some 2%Q) None None None None None
               None None;
             mkInputJSONCameraObject (Some "hud"%string) None None None None
               None None None None None None None None])]
      (initial example_scene) in
  cameras (this w) = [0%nat; 1%nat]
  ∧ (λ c, (Camera.x c, Camera.y c, Camera.width c, Camera.height c,
           Camera.zoom c)) <$> heap w !! 0%nat
    = Some (10%Q, 20%Q, 100%Q, 50%Q, 2%Q)
  ∧ (λ c, (Camera.name c, Camera.width c, Camera.height c))
    <$> heap w !! 1%nat
    = Some ("hud"%string, 800%Q, 600%Q).
Proof. by vm_compute. Qed.

(** After [destroy] the Scene is gone: [shutdown] and [resetAll] raise,
    and so does [add] without a size. *)
Example after_destroy :
  let w := run example_ext [OpBoot; OpDestroy] (initial example_scene) in
  scene (this w) = None
  ∧ cameras (this w) = []
  ∧ main (this w) = None
  ∧ (shutdown example_ext w).1 = TypeError
  ∧ (resetAll example_ext w).1 = TypeError
  ∧ (add example_ext None None None None None None w).1 = TypeError.
Proof. by vm_compute. Qed.


(** * More of the manager *)

(** ** [getCamera] *)

Lemma getCamera_loop_find l name w :
  (∀ r, r ∈ l → is_Some (heap w !! r)) →
  getCamera_loop l name w = (Normal (List.find (named (heap w) name) l), w).
Proof.
  induction l as [|r l IH]; intros Hl; [done|].
  destruct (Hl r) as [c Hc]; [by left|].
  cbn [getCamera_loop List.find].
  rewrite bind_eq, (deref_ok r w c) by done. cbv beta iota.
  unfold named at 1. rewrite Hc.
  destruct (decide (Camera.name c = name)) as [Hn|Hn].
  - by rewrite bool_decide_eq_true_2.
  - rewrite bool_decide_eq_false_2 by done. apply IH.
    intros; apply Hl; by right.
Qed.

(** X1.  [getCamera] returns the first camera of the [cameras] array
    whose name is the given one, [null] when there is none, and
    changes nothing. *)
Theorem getCamera_first_match name w :
  allocated w →
  getCamera name w
  = (Normal (List.find (named (heap w) name) (cameras (this w))), w).
Proof.
  intros Hal. unfold getCamera. rewrite bind_eq, get_this_eq.
  cbv beta iota. by apply getCamera_loop_find.
Qed.

Lemma named_cameras_allocated : allocated named_cameras.
Proof. apply allocated_Forall, (bool_decide_unpack _). vm_compute. exact I. Qed.

Lemma getCamera_first_match_witness :
  allocated named_cameras
  ∧ getCamera "map"%string named_cameras
    = (Normal (List.find (named (heap named_cameras) "map"%string)
                 (cameras (this named_cameras))), named_cameras).
Proof.
  split; [exact named_cameras_allocated|].
  exact (getCamera_first_match "map"%string named_cameras
           named_cameras_allocated).
Defined.

(** Of the two cameras named "map" the one registered first is
    returned. *)
Example getCamera_named_cameras :
  (getCamera "map"%string named_cameras).1 = Normal (Some 1%nat)
  ∧ (getCamera "radar"%string named_cameras).1 = Normal None.
Proof. by vm_compute. Qed.

(** ** More on [add] and [addExisting] *)

(** X2.  [add] creates a camera object that did not exist and is not
    in the array, changes no other camera object, sets [main] to the
    new camera exactly when [makeMain] is given as true, and calls the
    constructor, [setName] and [setScene] on the new camera, in this
    order, and nothing else. *)
Theorem add_changes_nothing_else ext w x y width height makeMain name :
  add_defined w width height →
  allocated w →
  ∃ r w',
    add ext x y width height makeMain name w = (Normal r, w')
    ∧ heap w !! r = None
    ∧ (r ∉ cameras (this w))
    ∧ (∀ r', r' ≠ r → heap w' !! r' = heap w !! r')
    ∧ main (this w') = (if default false makeMain then Some r
                        else main (this w))
    ∧ calls w'
      = calls w
        ++ [CallNew r (default 0%Q x) (default 0%Q y)
              (host_width w width) (host_height w height);
            CallSetName r (default EmptyString name);
            CallSetScene r (scene (this w))].
Proof.
  intros Hd Hal. eexists _, _. split; [by apply add_normal|].
  unfold added_world. proj.
  split; [apply not_elem_of_dom, is_fresh|].
  split; [by apply consistent_fresh|].
  split; [|done]. intros r' Hr'. by rewrite lookup_insert_ne.
Qed.

Lemma four_cameras_allocated : allocated four_cameras.
Proof. apply allocated_Forall, (bool_decide_unpack _). vm_compute. exact I. Qed.

Lemma add_changes_nothing_else_witness :
  add_defined four_cameras None None
  ∧ allocated four_cameras
  ∧ ∃ r w',
      add example_ext None None None None (Some true) None four_cameras
      = (Normal r, w')
      ∧ heap four_cameras !! r = None
      ∧ (r ∉ cameras (this four_cameras))
      ∧ (∀ r', r' ≠ r → heap w' !! r' = heap four_cameras !! r')
      ∧ main (this w') = (if default false (Some true) then Some r
                          else main (this four_cameras))
      ∧ calls w'
        = calls four_cameras
          ++ [CallNew r (default 0%Q None) (default 0%Q None)
                (host_width four_cameras None) (host_height four_cameras None);
              CallSetName r (default EmptyString None);
              CallSetScene r (scene (this four_cameras))].
Proof.
  assert (Hd : add_defined four_cameras None None)
    by (left; apply (bool_decide_unpack _); vm_compute; exact I).
  split; [exact Hd|]. split; [exact four_cameras_allocated|].
  exact (add_changes_nothing_else example_ext four_cameras None None None None
           (Some true) None Hd four_cameras_allocated).
Defined.

(** X3.  [addExisting] of a camera that is not in the array appends it,
    overwrites its [id] with the counter and changes nothing else of
    it, shifts the counter, sets [main] exactly when [makeMain] is
    given as true, changes no other camera object, and makes no call:
    unlike [add] it calls neither [setName] nor [setScene]. *)
Theorem addExisting_writes_id_only w camera makeMain c :
  (camera ∉ cameras (this w)) →
  heap w !! camera = Some c →
  ∃ w',
    addExisting camera makeMain w = (Normal (Some camera), w')
    ∧ cameras (this w') = cameras (this w) ++ [camera]
    ∧ heap w' !! camera = Some (Camera.set_id (nextID (this w)) c)
    ∧ (∀ r', r' ≠ camera → heap w' !! r' = heap w !! r')
    ∧ nextID (this w') = shl (nextID (this w)) 1
    ∧ main (this w') = (if default false makeMain then Some camera
                        else main (this w))
    ∧ calls w' = calls w.
Proof.
  intros Hin Hc. eexists. split; [apply addExisting_absent; eauto|].
  unfold registered_world. proj.
  split; [done|]. split; [by rewrite lookup_alter_eq, Hc|].
  split; [|done]. intros r' Hr'. by rewrite lookup_alter_ne.
Qed.

Lemma addExisting_writes_id_only_witness :
  (1%nat ∉ cameras (this own_camera))
  ∧ heap own_camera !! 1%nat
    = Some (Camera_new example_ext 0%Q 0%Q 100%Q 100%Q)
  ∧ ∃ w',
      addExisting 1%nat (Some true) own_camera = (Normal (Some 1%nat), w')
      ∧ cameras (this w') = cameras (this own_camera) ++ [1%nat]
      ∧ heap w' !! 1%nat
        = Some (Camera.set_id (nextID (this own_camera))
                  (Camera_new example_ext 0%Q 0%Q 100%Q 100%Q))
      ∧ (∀ r', r' ≠ 1%nat → heap w' !! r' = heap own_camera !! r')
      ∧ nextID (this w') = shl (nextID (this own_camera)) 1
      ∧ main (this w') = (if default false (Some true) then Some 1%nat
                          else main (this own_camera))
      ∧ calls w' = calls own_camera.
Proof.
  assert (Hin : 1%nat ∉ cameras (this own_camera))
    by (apply (bool_decide_unpack _); vm_compute; exact I).
  assert (Hc : heap own_camera !! 1%nat
               = Some (Camera_new example_ext 0%Q 0%Q 100%Q 100%Q))
    by (vm_compute; reflexivity).
  split; [exact Hin|]. split; [exact Hc|].
  exact (addExisting_writes_id_only own_camera 1%nat (Some true) _ Hin Hc).
Defined.

(** ** More on [remove] *)

Lemma delete_filter_ne (l : list ref) i c :
  NoDup l → l !! i = Some c →
  delete i l = List.filter (λ r, bool_decide (r ≠ c)) l.
Proof.
  revert i. induction l as [|e l IH]; intros i Hnd Hi; [done|].
  apply NoDup_cons in Hnd as [He Hnd]. destruct i as [|i]; simpl in *.
  - injection Hi as ->. rewrite bool_decide_eq_false_2 by (intros ?; done).
    symmetry. rewrite <- (filter_ext_in (λ _, true)).
    + clear. induction l as [|e l IH]; simpl; [done|]. by rewrite IH.
    + intros r Hr%list_elem_of_In. symmetry. apply bool_decide_eq_true_2.
      intros ->. done.
  - rewrite bool_decide_eq_true_2.
    + f_equal. by apply IH.
    + intros ->. apply He. by eapply list_elem_of_lookup_2.
Qed.

(** X4.  [remove] of a camera of an array of at least two, in which no
    camera is twice, takes out that camera and keeps the others in
    their order; [main] stays when it is another camera, the counter
    stays, and the removed camera object is not changed. *)
Theorem remove_keeps_the_order w camera :
  NoDup (cameras (this w)) →
  camera ∈ cameras (this w) →
  (2 ≤ length (cameras (this w)))%nat →
  ∃ w',
    remove camera w = (Normal tt, w')
    ∧ cameras (this w')
      = List.filter (λ r, bool_decide (r ≠ camera)) (cameras (this w))
    ∧ (main (this w) ≠ Some camera → main (this w') = main (this w))
    ∧ nextID (this w') = nextID (this w)
    ∧ heap w' = heap w.
Proof.
  intros Hnd Hin Hlen. eexists. split; [by apply remove_removes|].
  unfold removed_world. proj.
  destruct (indexOf_present _ _ Hin) as [_ Hi].
  split; [by apply delete_filter_ne|]. split; [|done].
  intros Hm. by rewrite decide_False.
Qed.

Lemma remove_keeps_the_order_witness :
  NoDup (cameras (this four_cameras))
  ∧ 2%nat ∈ cameras (this four_cameras)
  ∧ (2 ≤ length (cameras (this four_cameras)))%nat
  ∧ ∃ w',
      remove 2%nat four_cameras = (Normal tt, w')
      ∧ cameras (this w')
        = List.filter (λ r, bool_decide (r ≠ 2%nat))
            (cameras (this four_cameras))
      ∧ (main (this four_cameras) ≠ Some 2%nat →
         main (this w') = main (this four_cameras))
      ∧ nextID (this w') = nextID (this four_cameras)
      ∧ heap w' = heap four_cameras.
Proof.
  assert (Hnd : NoDup (cameras (this four_cameras)))
    by (apply (bool_decide_unpack _); vm_compute; exact I).
  assert (Hin : 2%nat ∈ cameras (this four_cameras))
    by (apply (bool_decide_unpack _); vm_compute; exact I).
  assert (Hlen : (2 ≤ length (cameras (this four_cameras)))%nat)
    by (apply (bool_decide_unpack _); vm_compute; exact I).
  split; [exact Hnd|]. split; [exact Hin|]. split; [exact Hlen|].
  exact (remove_keeps_the_order four_cameras 2%nat Hnd Hin Hlen).
Defined.

(** X5.  A camera that is removed and registered again with
    [addExisting] goes to the end of the array, and its identity is
    overwritten with the value of the counter, which is shifted again.
    The new identity differs from the former one when the former one
    is a power of two below the counter, as the identities are while
    the counter has not run out. *)
Theorem readded_camera_gets_new_identity w camera makeMain c :
  NoDup (cameras (this w)) →
  camera ∈ cameras (this w) →
  (2 ≤ length (cameras (this w)))%nat →
  heap w !! camera = Some c →
  ∃ w',
    addExisting camera makeMain (remove camera w).2
    = (Normal (Some camera), w')
    ∧ cameras (this w')
      = List.filter (λ r, bool_decide (r ≠ camera)) (cameras (this w))
        ++ [camera]
    ∧ heap w' !! camera = Some (Camera.set_id (nextID (this w)) c)
    ∧ nextID (this w') = shl (nextID (this w)) 1
    ∧ ∀ j k,
        0 ≤ j < k →
        Camera.id c = 2 ^ j →
        nextID (this w) = 2 ^ k →
        Camera.id <$> heap w' !! camera ≠ Camera.id <$> heap w !! camera.
Proof.
  intros Hnd Hin Hlen Hc.
  rewrite remove_removes by done. cbn [snd].
  destruct (indexOf_present _ _ Hin) as [_ Hi].
  assert (Hnin : camera ∉ cameras (this (removed_world w camera))).
  { unfold removed_world. proj. rewrite (delete_filter_ne _ _ camera) by done.
    intros Hf%list_elem_of_In%filter_In. destruct Hf as [_ Hf].
    by apply bool_decide_eq_true_1 in Hf. }
  eexists. split; [apply addExisting_absent; [done|]|].
  { unfold removed_world. proj. eauto. }
  unfold registered_world, removed_world. proj.
  split; [by rewrite (delete_filter_ne _ _ camera)|].
  split; [by rewrite lookup_alter_eq, Hc|]. split; [done|].
  intros j k Hjk Hj Hk. rewrite lookup_alter_eq, Hc. cbn.
  rewrite Hj, Hk. intros [= Heq]. apply Z.pow_inj_r in Heq; lia.
Qed.

Lemma readded_camera_gets_new_identity_witness :
  NoDup (cameras (this four_cameras))
  ∧ 0%nat ∈ cameras (this four_cameras)
  ∧ (2 ≤ length (cameras (this four_cameras)))%nat
  ∧ heap four_cameras !! 0%nat
    = Some (Camera.set_id 1 (Camera_new example_ext 0%Q 0%Q 800%Q 600%Q))
  ∧ 0 ≤ 0 < 4
  ∧ Camera.id (Camera.set_id 1 (Camera_new example_ext 0%Q 0%Q 800%Q 600%Q))
    = 2 ^ 0
  ∧ nextID (this four_cameras) = 2 ^ 4
  ∧ ∃ w',
      addExisting 0%nat None (remove 0%nat four_cameras).2
      = (Normal (Some 0%nat), w')
      ∧ cameras (this w')
        = List.filter (λ r, bool_decide (r ≠ 0%nat))
            (cameras (this four_cameras))
          ++ [0%nat]
      ∧ heap w' !! 0%nat
        = Some (Camera.set_id (nextID (this four_cameras))
                  (Camera.set_id 1
                     (Camera_new example_ext 0%Q 0%Q 800%Q 600%Q)))
      ∧ nextID (this w') = shl (nextID (this four_cameras)) 1
      ∧ Camera.id <$> heap w' !! 0%nat ≠ Camera.id <$> heap four_cameras !! 0%nat.
Proof.
  assert (Hnd : NoDup (cameras (this four_cameras)))
    by (apply (bool_decide_unpack _); vm_compute; exact I).
  assert (Hin : 0%nat ∈ cameras (this four_cameras))
    by (apply (bool_decide_unpack _); vm_compute; exact I).
  assert (Hlen : (2 ≤ length (cameras (this four_cameras)))%nat)
    by (apply (bool_decide_unpack _); vm_compute; exact I).
  assert (Hc : heap four_cameras !! 0%nat
               = Some (Camera.set_id 1
                         (Camera_new example_ext 0%Q 0%Q 800%Q 600%Q)))
    by (vm_compute; reflexivity).
  assert (Hjk : 0 ≤ 0 < 4) by lia.
  assert (Hj : Camera.id (Camera.set_id 1
                            (Camera_new example_ext 0%Q 0%Q 800%Q 600%Q))
               = 2 ^ 0) by reflexivity.
  assert (Hk : nextID (this four_cameras) = 2 ^ 4) by (vm_compute; reflexivity).
  split; [exact Hnd|]. split; [exact Hin|]. split; [exact Hlen|].
  split; [exact Hc|]. split; [exact Hjk|]. split; [exact Hj|].
  split; [exact Hk|].
  destruct (readded_camera_gets_new_identity four_cameras 0%nat None _
              Hnd Hin Hlen Hc) as (w' & H1 & H2 & H3 & H4 & H5).
  exists w'. split; [exact H1|]. split; [exact H2|]. split; [exact H3|].
  split; [exact H4|]. exact (H5 0 4 Hjk Hj Hk).
Defined.

(** The identity of the first of four cameras before and after. *)
Example readded_first_of_four :
  Camera.id <$> heap four_cameras !! 0%nat = Some 1
  ∧ Camera.id
    <$> heap (addExisting 0%nat None (remove 0%nat four_cameras).2).2 !! 0%nat
    = Some 16.
Proof. by vm_compute. Qed.


(** ** More on the frame dispatch and the teardown *)

Lemma foldl_alter_lookup (f : Camera.t → Camera.t) l :
  ∀ (h : gmap ref Camera.t) r,
    NoDup l →
    foldl (λ h r, alter f r h) h l !! r
    = if decide (r ∈ l) then f <$> h !! r else h !! r.
Proof.
  induction l as [|e l IH]; intros h r Hnd.
  - cbn [foldl]. case_decide as Hr; [by apply elem_of_nil in Hr|done].
  - apply NoDup_cons in Hnd as [He Hnd]. cbn [foldl]. rewrite IH by done.
    destruct (decide (r = e)) as [->|Hne].
    + do 2 case_decide; try done.
      * apply lookup_alter_eq.
      * exfalso. apply H0. by left.
    + rewrite lookup_alter_ne by done.
      do 2 case_decide; try done.
      * exfalso. apply H0. by right.
      * exfalso. apply elem_of_cons in H0 as [?|?]; done.
Qed.

Lemma foldl_alter_in (f : Camera.t → Camera.t) l (h : gmap ref Camera.t) r :
  NoDup l → r ∈ l → foldl (λ h r, alter f r h) h l !! r = f <$> h !! r.
Proof. intros Hnd Hr. by rewrite foldl_alter_lookup, decide_True. Qed.

Lemma foldl_alter_notin (f : Camera.t → Camera.t) l (h : gmap ref Camera.t) r :
  r ∉ l → foldl (λ h r, alter f r h) h l !! r = h !! r.
Proof.
  revert h. induction l as [|e l IH]; intros h Hr; [done|].
  apply not_elem_of_cons in Hr as [Hne Hr]. cbn [foldl].
  by rewrite IH, lookup_alter_ne.
Qed.

(** X6.  [update] calls [update(timestep, delta)] on every camera of
    the array, in order and whether it is visible or not; each of
    these camera objects is updated once, no other object and nothing
    of the manager is changed. *)
Theorem update_reaches_every_camera ext timestep delta w :
  NoDup (cameras (this w)) →
  allocated w →
  ∃ w',
    update ext timestep delta w = (Normal tt, w')
    ∧ this w' = this w
    ∧ calls w'
      = calls w ++ map (λ r, CallUpdate r timestep delta) (cameras (this w))
    ∧ (∀ r, r ∈ cameras (this w) →
            heap w' !! r = Camera_update ext timestep delta <$> heap w !! r)
    ∧ (∀ r, r ∉ cameras (this w) → heap w' !! r = heap w !! r).
Proof.
  intros Hnd Hal. eexists. split.
  { unfold update. rewrite bind_eq, get_this_eq. cbv beta iota.
    by apply (for_each_invoke _ (λ r, CallUpdate r timestep delta)). }
  proj. split; [done|]. split; [done|]. split.
  - intros r Hr. by apply foldl_alter_in.
  - intros r Hr. by apply foldl_alter_notin.
Qed.

Lemma four_cameras_NoDup : NoDup (cameras (this four_cameras)).
Proof. apply (bool_decide_unpack _). vm_compute. exact I. Qed.

Lemma update_reaches_every_camera_witness :
  NoDup (cameras (this four_cameras))
  ∧ allocated four_cameras
  ∧ ∃ w',
      update example_ext 16%Q 16%Q four_cameras = (Normal tt, w')
      ∧ this w' = this four_cameras
      ∧ calls w'
        = calls four_cameras
          ++ map (λ r, CallUpdate r 16%Q 16%Q) (cameras (this four_cameras))
      ∧ (∀ r, r ∈ cameras (this four_cameras) →
              heap w' !! r
              = Camera_update example_ext 16%Q 16%Q <$> heap four_cameras !! r)
      ∧ (∀ r, r ∉ cameras (this four_cameras) →
              heap w' !! r = heap four_cameras !! r).
Proof.
  split; [exact four_cameras_NoDup|]. split; [exact four_cameras_allocated|].
  exact (update_reaches_every_camera example_ext 16%Q 16%Q four_cameras
           four_cameras_NoDup four_cameras_allocated).
Defined.

(** X7.  [resize] calls [setSize(width, height)] on every camera of the
    array, in order; each of these camera objects is resized once, no
    other object and nothing of the manager is changed. *)
Theorem resize_reaches_every_camera ext width height w :
  NoDup (cameras (this w)) →
  allocated w →
  ∃ w',
    resize ext width height w = (Normal tt, w')
    ∧ this w' = this w
    ∧ calls w'
      = calls w ++ map (λ r, CallSetSize r width height) (cameras (this w))
    ∧ (∀ r, r ∈ cameras (this w) →
            heap w' !! r = Camera_setSize ext width height <$> heap w !! r)
    ∧ (∀ r, r ∉ cameras (this w) → heap w' !! r = heap w !! r).
Proof.
  intros Hnd Hal. eexists. split.
  { unfold resize. rewrite bind_eq, get_this_eq. cbv beta iota.
    by apply (for_each_invoke _ (λ r, CallSetSize r width height)). }
  proj. split; [done|]. split; [done|]. split.
  - intros r Hr. by apply foldl_alter_in.
  - intros r Hr. by apply foldl_alter_notin.
Qed.

Lemma resize_reaches_every_camera_witness :
  NoDup (cameras (this four_cameras))
  ∧ allocated four_cameras
  ∧ ∃ w',
      resize example_ext 320%Q 200%Q four_cameras = (Normal tt, w')
      ∧ this w' = this four_cameras
      ∧ calls w'
        = calls four_cameras
          ++ map (λ r, CallSetSize r 320%Q 200%Q) (cameras (this four_cameras))
      ∧ (∀ r, r ∈ cameras (this four_cameras) →
              heap w' !! r
              = Camera_setSize example_ext 320%Q 200%Q
                <$> heap four_cameras !! r)
      ∧ (∀ r, r ∉ cameras (this four_cameras) →
              heap w' !! r = heap four_cameras !! r).
Proof.
  split; [exact four_cameras_NoDup|]. split; [exact four_cameras_allocated|].
  exact (resize_reaches_every_camera example_ext 320%Q 200%Q four_cameras
           four_cameras_NoDup four_cameras_allocated).
Defined.

(** After [resize(320, 200)] the camera created 200 by 200 is 320 by
    200 like the others. *)
Example resize_four_cameras :
  (λ c, (Camera.width c, Camera.height c))
  <$> heap (resize example_ext 320%Q 200%Q four_cameras).2 !! 2%nat
  = Some (320%Q, 200%Q).
Proof. by vm_compute. Qed.

(** X8.  [shutdown], on a manager that has its Scene, calls [destroy]
    on every camera of the array, in order, also on those a program
    registered with [addExisting], and then unsubscribes from [update]
    and [shutdown]; camera objects outside the array are not touched,
    and the counter is not restarted. *)
Theorem shutdown_destroys_every_camera ext w :
  is_Some (systems (this w)) →
  NoDup (cameras (this w)) →
  allocated w →
  ∃ w',
    shutdown ext w = (Normal tt, w')
    ∧ calls w'
      = calls w ++ map CallDestroy (cameras (this w))
        ++ [CallOff sig_update on_update; CallOff sig_shutdown on_shutdown]
    ∧ (∀ r, r ∈ cameras (this w) →
            heap w' !! r = Camera_destroy ext <$> heap w !! r)
    ∧ (∀ r, r ∉ cameras (this w) → heap w' !! r = heap w !! r)
    ∧ nextID (this w') = nextID (this w)
    ∧ scene (this w') = scene (this w)
    ∧ systems (this w') = systems (this w).
Proof.
  intros Hs Hnd Hal. eexists. split; [by apply shutdown_normal|].
  unfold shut_down, destroyed. proj. split; [done|]. split.
  - intros r Hr. by apply foldl_alter_in.
  - split; [|done]. intros r Hr. by apply foldl_alter_notin.
Qed.

Lemma shutdown_destroys_every_camera_witness :
  is_Some (systems (this four_cameras))
  ∧ NoDup (cameras (this four_cameras))
  ∧ allocated four_cameras
  ∧ ∃ w',
      shutdown example_ext four_cameras = (Normal tt, w')
      ∧ calls w'
        = calls four_cameras ++ map CallDestroy (cameras (this four_cameras))
          ++ [CallOff sig_update on_update; CallOff sig_shutdown on_shutdown]
      ∧ (∀ r, r ∈ cameras (this four_cameras) →
              heap w' !! r = Camera_destroy example_ext <$> heap four_cameras !! r)
      ∧ (∀ r, r ∉ cameras (this four_cameras) →
              heap w' !! r = heap four_cameras !! r)
      ∧ nextID (this w') = nextID (this four_cameras)
      ∧ scene (this w') = scene (this four_cameras)
      ∧ systems (this w') = systems (this four_cameras).
Proof.
  assert (Hs : is_Some (systems (this four_cameras)))
    by (apply (bool_decide_unpack _); vm_compute; exact I).
  split; [exact Hs|]. split; [exact four_cameras_NoDup|].
  split; [exact four_cameras_allocated|].
  exact (shutdown_destroys_every_camera example_ext four_cameras Hs
           four_cameras_NoDup four_cameras_allocated).
Defined.

(** X9.  [destroy], on a manager that has its Scene, does what
    [shutdown] does, unsubscribes from [start], and lets go of the
    Scene: afterwards [scene] and [systems] are [null], the array is
    empty and [main] is unset; the counter is left as it is. *)
Theorem destroy_releases_everything ext w :
  attached w →
  allocated w →
  ∃ w',
    destroy ext w = (Normal tt, w')
    ∧ scene (this w') = None
    ∧ systems (this w') = None
    ∧ cameras (this w') = []
    ∧ main (this w') = None
    ∧ nextID (this w') = nextID (this w)
    ∧ heap w' = heap (shutdown ext w).2
    ∧ calls w'
      = calls w ++ map CallDestroy (cameras (this w))
        ++ [CallOff sig_update on_update; CallOff sig_shutdown on_shutdown;
            CallOff sig_start on_start].
Proof.
  intros Hat Hal. eexists. split; [by apply destroy_normal|].
  rewrite shutdown_normal by (by destruct Hat).
  unfold shut_down. proj. repeat split; try done.
  by rewrite <- !(assoc_L (++)).
Qed.

Lemma destroy_releases_everything_witness :
  attached four_cameras
  ∧ allocated four_cameras
  ∧ ∃ w',
      destroy example_ext four_cameras = (Normal tt, w')
      ∧ scene (this w') = None
      ∧ systems (this w') = None
      ∧ cameras (this w') = []
      ∧ main (this w') = None
      ∧ nextID (this w') = nextID (this four_cameras)
      ∧ heap w' = heap (shutdown example_ext four_cameras).2
      ∧ calls w'
        = calls four_cameras ++ map CallDestroy (cameras (this four_cameras))
          ++ [CallOff sig_update on_update; CallOff sig_shutdown on_shutdown;
              CallOff sig_start on_start].
Proof.
  assert (Hat : attached four_cameras).
  { split; apply (bool_decide_unpack _); vm_compute; exact I. }
  split; [exact Hat|]. split; [exact four_cameras_allocated|].
  exact (destroy_releases_everything example_ext four_cameras Hat
           four_cameras_allocated).
Defined.

(** X10.  On a manager that has let go of its Scene, the methods that
    need the Scene raise a [TypeError]: [boot], [start] and [fromJSON]
    (even of an empty array) before they change anything, [shutdown],
    [destroy] and [resetAll] after they have destroyed and forgotten
    the cameras. *)
Theorem destroyed_manager_raises ext w config :
  scene (this w) = None →
  systems (this w) = None →
  allocated w →
  boot ext w = (TypeError, w)
  ∧ start ext w = (TypeError, w)
  ∧ fromJSON ext config w = (TypeError, w)
  ∧ (shutdown ext w).1 = TypeError
  ∧ (destroy ext w).1 = TypeError
  ∧ (resetAll ext w).1 = TypeError
  ∧ cameras (this (resetAll ext w).2) = []
  ∧ calls (resetAll ext w).2
    = calls w ++ map CallDestroy (cameras (this w)).
Proof.
  intros Hsc Hsy Hal.
  assert (Hboot : boot ext w = (TypeError, w)).
  { unfold boot. mstep. rewrite Hsy. by rewrite bind_eq. }
  split; [done|]. split.
  { unfold start. mstep.
    destruct (main (this w)).
    - mstep. mstep. rewrite Hsy. by rewrite bind_eq.
    - by rewrite bind_eq, Hboot. }
  split.
  { unfold fromJSON. cbv zeta. by rewrite bind_eq, game_config_fails. }
  split; [by rewrite shutdown_throws|].
  split.
  { unfold destroy. by rewrite bind_eq, shutdown_throws. }
  assert (Hr : resetAll ext w
               = (TypeError,
                  mkWorld (set_nextID 1 (set_cameras [] (this w)))
                    (destroyed ext (cameras (this w)) (heap w))
                    (calls w ++ map CallDestroy (cameras (this w))))).
  { unfold resetAll. rewrite bind_eq, get_this_eq. cbv beta iota.
    rewrite bind_eq, destroy_loop by done. cbv beta iota.
    mstep. mstep. rewrite bind_eq, add_throws; [done|].
    unfold add_defined. proj. rewrite Hsc.
    intros [?%is_Some_None|[?%is_Some_None _]]; done. }
  by rewrite Hr.
Qed.

Lemma destroyed_manager_raises_witness :
  scene (this destroyed_manager) = None
  ∧ systems (this destroyed_manager) = None
  ∧ allocated destroyed_manager
  ∧ boot example_ext destroyed_manager = (TypeError, destroyed_manager)
  ∧ start example_ext destroyed_manager = (TypeError, destroyed_manager)
  ∧ fromJSON example_ext (ConfigArray []) destroyed_manager
    = (TypeError, destroyed_manager)
  ∧ (shutdown example_ext destroyed_manager).1 = TypeError
  ∧ (destroy example_ext destroyed_manager).1 = TypeError
  ∧ (resetAll example_ext destroyed_manager).1 = TypeError
  ∧ cameras (this (resetAll example_ext destroyed_manager).2) = []
  ∧ calls (resetAll example_ext destroyed_manager).2
    = calls destroyed_manager
      ++ map CallDestroy (cameras (this destroyed_manager)).
Proof.
  assert (Hsc : scene (this destroyed_manager) = None)
    by (vm_compute; reflexivity).
  assert (Hsy : systems (this destroyed_manager) = None)
    by (vm_compute; reflexivity).
  assert (Hal : allocated destroyed_manager)
    by (apply allocated_Forall, (bool_decide_unpack _); vm_compute; exact I).
  split; [exact Hsc|]. split; [exact Hsy|]. split; [exact Hal|].
  exact (destroyed_manager_raises example_ext destroyed_manager (ConfigArray [])
           Hsc Hsy Hal).
Defined.


(** ** [fromJSON], [boot] and [start] *)

(** What the body of the loop of [fromJSON] does. *)
Lemma fromJSON_body_normal ext gameWidth gameHeight cameraConfig w :
  fromJSON_body ext gameWidth gameHeight cameraConfig w
  = (Normal tt,
     let x := Some (GetFastValue (cfg_x cameraConfig) 0%Q) in
     let y := Some (GetFastValue (cfg_y cameraConfig) 0%Q) in
     let width := Some (GetFastValue (cfg_width cameraConfig) gameWidth) in
     let height := Some (GetFastValue (cfg_height cameraConfig) gameHeight) in
     let w1 := added_world ext w x y width height None None in
     mkWorld (this w1)
       (<[fresh (dom (heap w)) :=
            configured ext gameWidth gameHeight cameraConfig
              (added_camera ext w x y width height None)]> (heap w))
       (calls w1
        ++ configure_calls gameWidth gameHeight (fresh (dom (heap w)))
             cameraConfig)).
Proof.
  unfold fromJSON_body. cbv zeta.
  rewrite bind_eq, add_normal by (right; eauto). cbv beta iota.
  unfold added_world. proj.
  do 7 mstep. rewrite !alter_insert_eq.
  unfold configured, configure_calls.
  destruct (cfg_backgroundColor cameraConfig) as [[|a c]|],
    (cfg_bounds cameraConfig) as [b|].
  all: repeat mstep.
  all: rewrite ?ret_eq, ?invoke_ok
         by (proj; rewrite ?lookup_alter_eq, ?lookup_insert_eq; eauto).
  all: proj; rewrite ?alter_insert_eq, ?app_nil_r, <- ?(assoc_L (++)).
  all: reflexivity.
Qed.

Lemma extends_refl w : extends 0 w w.
Proof.
  exists []. rewrite app_nil_r. split; [done|]. split; [done|].
  split; [by intros r ?%elem_of_nil|].
  do 6 (split; [done|]). exists []. by rewrite app_nil_r.
Qed.

Lemma shifted_add z n m : shifted (shifted z n) m = shifted z (n + m).
Proof.
  unfold shifted. rewrite Nat.add_comm. symmetry.
  exact (Nat.iter_add m n (λ z, shl z 1) z).
Qed.

Lemma extends_trans n m w w1 w2 :
  extends n w w1 → extends m w1 w2 → extends (n + m) w w2.
Proof.
  intros (new1 & Hc1 & Hl1 & Hn1 & Hf1 & Hid1 & Hm1 & Hs1 & Hy1 & Hb1 & cs1 & Hcs1)
         (new2 & Hc2 & Hl2 & Hn2 & Hf2 & Hid2 & Hm2 & Hs2 & Hy2 & Hb2 & cs2 & Hcs2).
  exists (new1 ++ new2).
  split; [by rewrite Hc2, Hc1, (assoc_L (++))|].
  split; [rewrite length_app; lia|].
  split.
  { intros r [Hr|Hr]%elem_of_app.
    - destruct (Hn1 r Hr) as [Hnone Hsome]. split; [done|].
      by rewrite (Hf2 r Hsome).
    - destruct (Hn2 r Hr) as [Hnone Hsome]. split; [|done].
      destruct (heap w !! r) as [c|] eqn:Hc; [|done].
      rewrite (Hf1 r) in Hnone by eauto. congruence. }
  split.
  { intros r Hr. rewrite Hf2; [by apply Hf1|]. by rewrite Hf1. }
  split; [by rewrite Hid2, Hid1, shifted_add|].
  repeat (split; [congruence|]).
  exists (cs1 ++ cs2). by rewrite Hcs2, Hcs1, (assoc_L (++)).
Qed.

Lemma added_world_extends ext w x y width height name :
  extends 1 w (added_world ext w x y width height None name).
Proof.
  exists [fresh (dom (heap w))]. unfold added_world. proj.
  assert (Hfresh : heap w !! fresh (dom (heap w)) = None)
    by apply not_elem_of_dom, is_fresh.
  split; [done|]. split; [done|]. split.
  { intros r ->%list_elem_of_singleton. by rewrite lookup_insert_eq. }
  split.
  { intros r [c Hc]. rewrite lookup_insert_ne; [done|]. congruence. }
  do 5 (split; [done|]). eexists. reflexivity.
Qed.

Lemma fromJSON_body_extends ext gameWidth gameHeight cameraConfig w :
  extends 1 w (fromJSON_body ext gameWidth gameHeight cameraConfig w).2.
Proof.
  rewrite fromJSON_body_normal. cbv zeta. cbn [snd].
  exists [fresh (dom (heap w))]. unfold added_world. proj.
  assert (Hfresh : heap w !! fresh (dom (heap w)) = None)
    by apply not_elem_of_dom, is_fresh.
  split; [done|]. split; [done|]. split.
  { intros r ->%list_elem_of_singleton. by rewrite lookup_insert_eq. }
  split.
  { intros r [c Hc]. rewrite lookup_insert_ne; [done|]. congruence. }
  do 5 (split; [done|]). eexists. rewrite <- (assoc_L (++)). reflexivity.
Qed.

Lemma fromJSON_loop_extends ext gameWidth gameHeight cs :
  ∀ w, ∃ w',
    for_each cs (fromJSON_body ext gameWidth gameHeight) w = (Normal tt, w')
    ∧ extends (length cs) w w'.
Proof.
  induction cs as [|c cs IH]; intros w.
  - exists w. split; [done|apply extends_refl].
  - cbn [for_each]. pose proof (fromJSON_body_extends ext gameWidth gameHeight c w) as He.
    rewrite bind_eq. rewrite fromJSON_body_normal in *. cbv zeta in *.
    cbv beta iota. cbn [snd] in He.
    edestruct IH as (w' & Heq & He'). exists w'. split; [exact Heq|].
    apply (extends_trans 1 (length cs) _ _ _ He He').
Qed.

(** [fromJSON], on a manager that has its Scene, registers one new
    camera for each configuration object and changes neither [main] nor
    any camera object that existed before. *)
Lemma fromJSON_extends ext config w :
  is_Some (scene (this w)) →
  ∃ w',
    fromJSON ext config w = (Normal tt, w')
    ∧ extends (length (config_list config)) w w'.
Proof.
  intros [s Hs]. unfold fromJSON. cbv zeta.
  rewrite bind_eq, (game_config_ok w s) by done. cbv beta iota.
  destruct config as [c|cs]; apply fromJSON_loop_extends.
Qed.

(** X12.  [fromJSON] of one configuration object creates the camera
    with the position and size of the configuration, 0 and the size of
    the game where a key is missing; it calls [setName] with the empty
    name, and [setBackgroundColor] and [setBounds] only for a
    background colour that is not empty and for bounds that are given,
    the bounds with the same defaults.  When neither is given, the
    camera has the identity that was the counter, and the name, zoom,
    rotation, scroll, [roundPixels] and [visible] of the configuration,
    with the defaults the empty name, 1, 0, 0, 0, [false] and
    [true]. *)
Theorem fromJSON_applies_the_config ext cameraConfig w s :
  scene (this w) = Some s →
  ∃ w' r c,
    fromJSON ext (OneConfig cameraConfig) w = (Normal tt, w')
    ∧ cameras (this w') = cameras (this w) ++ [r]
    ∧ heap w !! r = None
    ∧ heap w' !! r = Some c
    ∧ calls w' = calls w ++ config_calls s r cameraConfig
    ∧ (cfg_backgroundColor cameraConfig = None
       ∨ cfg_backgroundColor cameraConfig = Some EmptyString →
       cfg_bounds cameraConfig = None →
       Camera.id c = nextID (this w)
       ∧ Camera.name c = default EmptyString (cfg_name cameraConfig)
       ∧ Camera.zoom c = default 1%Q (cfg_zoom cameraConfig)
       ∧ Camera.rotation c = default 0%Q (cfg_rotation cameraConfig)
       ∧ Camera.scrollX c = default 0%Q (cfg_scrollX cameraConfig)
       ∧ Camera.scrollY c = default 0%Q (cfg_scrollY cameraConfig)
       ∧ Camera.roundPixels c = default false (cfg_roundPixels cameraConfig)
       ∧ Camera.visible c = default true (cfg_visible cameraConfig)).
Proof.
  intros Hs. unfold fromJSON. cbv zeta.
  rewrite bind_eq, (game_config_ok w s) by done. cbv beta iota.
  cbn [for_each]. rewrite bind_eq, fromJSON_body_normal. cbv beta iota zeta.
  rewrite ret_eq. eexists _, (fresh (dom (heap w))), _.
  split; [reflexivity|]. unfold added_world. proj.
  split; [done|]. split; [apply not_elem_of_dom, is_fresh|].
  split; [apply lookup_insert_eq|]. split.
  - rewrite <- (assoc_L (++)). f_equal.
    unfold config_calls, configure_calls, host_width, host_height.
    rewrite Hs. reflexivity.
  - intros Hbg Hb. unfold configured. rewrite Hb.
    destruct Hbg as [-> | ->]; repeat split; reflexivity.
Qed.

Lemma fromJSON_applies_the_config_witness :
  scene (this four_cameras) = Some example_scene
  ∧ ∃ w' r c,
      fromJSON example_ext (OneConfig hud_config) four_cameras
      = (Normal tt, w')
      ∧ cameras (this w') = cameras (this four_cameras) ++ [r]
      ∧ heap four_cameras !! r = None
      ∧ heap w' !! r = Some c
      ∧ calls w' = calls four_cameras ++ config_calls example_scene r hud_config
      ∧ (cfg_backgroundColor hud_config = None
         ∨ cfg_backgroundColor hud_config = Some EmptyString →
         cfg_bounds hud_config = None →
         Camera.id c = nextID (this four_cameras)
         ∧ Camera.name c = default EmptyString (cfg_name hud_config)
         ∧ Camera.zoom c = default 1%Q (cfg_zoom hud_config)
         ∧ Camera.rotation c = default 0%Q (cfg_rotation hud_config)
         ∧ Camera.scrollX c = default 0%Q (cfg_scrollX hud_config)
         ∧ Camera.scrollY c = default 0%Q (cfg_scrollY hud_config)
         ∧ Camera.roundPixels c = default false (cfg_roundPixels hud_config)
         ∧ Camera.visible c = default true (cfg_visible hud_config)).
Proof.
  assert (Hs : scene (this four_cameras) = Some example_scene)
    by (vm_compute; reflexivity).
  split; [exact Hs|].
  exact (fromJSON_applies_the_config example_ext hud_config four_cameras
           example_scene Hs).
Defined.



Lemma boot_normal ext w sc s :
  scene (this w) = Some sc →
  systems (this w) = Some s →
  ∃ w1,
    extends (boot_count s) w w1
    ∧ boot ext w
      = (Normal tt,
         mkWorld (set_main (cameras (this w1) !! 0%nat) (this w1)) (heap w1)
           (calls w1 ++ [CallOnce sig_destroy on_destroy])).
Proof.
  intros Hsc Hsy. unfold boot, boot_count. mstep. rewrite Hsy. mstep.
  destruct (settings_cameras s) as [config|].
  - destruct (fromJSON_extends ext config w) as (w1 & Heq & He);
      [by rewrite Hsc|].
    exists w1. split; [done|]. rewrite bind_eq, Heq. cbv beta iota.
    mstep. mstep.
    destruct He as (_ & _ & _ & _ & _ & _ & _ & _ & Hsy1 & _).
    rewrite Hsy1, Hsy. mstep. by rewrite call_eq.
  - exists (added_world ext w None None None None None None).
    split; [apply added_world_extends|].
    mstep. rewrite bind_eq, add_normal by (left; rewrite Hsc; eauto).
    cbv beta iota. mstep. unfold added_world. proj.
    mstep. mstep. rewrite Hsy. mstep. by rewrite call_eq.
Qed.



(** A manager booted from a configuration of two cameras has the two,
    the first of them is [main], and the counter is 4; a manager that
    has four cameras already gets a fifth from [boot], and [main] is
    the first of the five. *)
Example boot_configured_scene :
  boot_count (sys configured_scene) = 2%nat
  ∧ cameras (this (boot example_ext (initial configured_scene)).2)
    = [0%nat; 1%nat]
  ∧ main (this (boot example_ext (initial configured_scene)).2) = Some 0%nat
  ∧ nextID (this (boot example_ext (initial configured_scene)).2) = 4
  ∧ cameras (this (boot example_ext four_cameras).2)
    = [0%nat; 1%nat; 2%nat; 3%nat; 4%nat]
  ∧ main (this (boot example_ext four_cameras).2) = Some 0%nat.
Proof. by vm_compute. Qed.

(** X15.  [start], on a manager that has its Scene, runs [boot] exactly
    when [main] is unset, and then subscribes to [update] and, once, to
    [shutdown]: with [main] set it changes nothing of the manager and
    the cameras. *)
Theorem start_boots_without_main ext w s :
  is_Some (scene (this w)) →
  systems (this w) = Some s →
  (main (this w) ≠ None →
   start ext w
   = (Normal tt,
      mkWorld (this w) (heap w)
        (calls w
         ++ [CallOn sig_update on_update; CallOnce sig_shutdown on_shutdown])))
  ∧ (main (this w) = None →
     ∃ w1,
       boot ext w = (Normal tt, w1)
       ∧ start ext w
         = (Normal tt,
            mkWorld (this w1) (heap w1)
              (calls w1
               ++ [CallOn sig_update on_update;
                   CallOnce sig_shutdown on_shutdown]))).
Proof.
  intros [sc Hsc] Hsy. split.
  - intros Hm. unfold start. mstep.
    destruct (main (this w)) as [c|]; [|done].
    mstep. mstep. rewrite Hsy. mstep. mstep. rewrite call_eq. proj.
    by rewrite <- (assoc_L (++)).
  - intros Hm. destruct (boot_normal ext w sc s Hsc Hsy) as (w1 & He & Heq).
    eexists. split; [exact Heq|].
    unfold start. mstep. rewrite Hm. rewrite bind_eq, Heq. cbv beta iota.
    mstep. proj.
    destruct He as (_ & _ & _ & _ & _ & _ & _ & _ & Hsy1 & _).
    rewrite Hsy1, Hsy. mstep. mstep. rewrite call_eq. proj.
    by rewrite <- (assoc_L (++)).
Qed.

Lemma start_boots_without_main_witness :
  is_Some (scene (this four_cameras))
  ∧ systems (this four_cameras) = Some (sys example_scene)
  ∧ main (this four_cameras) ≠ None
  ∧ start example_ext four_cameras
    = (Normal tt,
       mkWorld (this four_cameras) (heap four_cameras)
         (calls four_cameras
          ++ [CallOn sig_update on_update; CallOnce sig_shutdown on_shutdown])).
Proof.
  assert (Hsc : is_Some (scene (this four_cameras)))
    by (apply (bool_decide_unpack _); vm_compute; exact I).
  assert (Hsy : systems (this four_cameras) = Some (sys example_scene))
    by (vm_compute; reflexivity).
  assert (Hm : main (this four_cameras) ≠ None)
    by (vm_compute; discriminate).
  split; [exact Hsc|]. split; [exact Hsy|]. split; [exact Hm|].
  exact (proj1 (start_boots_without_main example_ext four_cameras
                  (sys example_scene) Hsc Hsy) Hm).
Defined.

(** What [boot] does when the Scene has no camera configuration. *)
Lemma boot_default_normal ext w sc s :
  scene (this w) = Some sc →
  systems (this w) = Some s →
  settings_cameras s = None →
  boot ext w
  = (Normal tt,
     mkWorld
       (set_main
          (cameras (this (added_world ext w None None None None None None))
           !! 0%nat)
          (this (added_world ext w None None None None None None)))
       (heap (added_world ext w None None None None None None))
       (calls (added_world ext w None None None None None None)
        ++ [CallOnce sig_destroy on_destroy])).
Proof.
  intros Hsc Hsy Hcfg. unfold boot. mstep. rewrite Hsy. mstep. rewrite Hcfg.
  mstep. rewrite bind_eq, add_normal by (left; rewrite Hsc; eauto).
  cbv beta iota. mstep. unfold added_world. proj.
  mstep. mstep. rewrite Hsy. mstep. by rewrite call_eq.
Qed.

(** X16.  When a Scene is shut down and started again, the manager
    creates its cameras again as [boot] does, and the counter goes on
    from where it was, since [shutdown] does not restart it: with no
    camera configuration the one new camera gets the value the counter
    had before the shutdown as its identity, not 1. *)
Theorem restart_continues_the_counter ext w s :
  is_Some (scene (this w)) →
  systems (this w) = Some s →
  allocated w →
  ∃ w',
    start ext (shutdown ext w).2 = (Normal tt, w')
    ∧ length (cameras (this w')) = boot_count s
    ∧ main (this w') = cameras (this w') !! 0%nat
    ∧ nextID (this w') = shifted (nextID (this w)) (boot_count s)
    ∧ (settings_cameras s = None →
       ∃ r c,
         cameras (this w') = [r]
         ∧ heap w' !! r = Some c
         ∧ Camera.id c = nextID (this w)).
Proof.
  intros [sc Hsc] Hsy Hal.
  rewrite shutdown_normal by (rewrite ?Hsy; eauto). cbn [snd].
  destruct (boot_normal ext (shut_down ext w) sc s) as (w1 & He & Heq);
    [by unfold shut_down; proj..|].
  eexists. split.
  { unfold start. mstep. unfold shut_down at 1. proj.
    rewrite bind_eq, Heq. cbv beta iota. mstep. proj.
    pose proof He as (_ & _ & _ & _ & _ & _ & _ & _ & Hsy1 & _).
    rewrite Hsy1. unfold shut_down at 1. proj. rewrite Hsy.
    mstep. mstep. apply call_eq. }
  proj. split; [|split; [done|split]].
  - destruct He as (new & Hc & Hl & _).
    unfold shut_down in Hc. cbn [this cameras set_cameras set_main] in Hc.
    by rewrite Hc.
  - destruct He as (new & _ & _ & _ & _ & Hid & _).
    unfold shut_down in Hid. cbn [this nextID set_cameras set_main] in Hid.
    done.
  - intros Hcfg.
    rewrite (boot_default_normal ext (shut_down ext w) sc s) in Heq
      by (by unfold shut_down; proj).
    pose proof (f_equal (λ p, cameras (this p.2)) Heq) as Hthis.
    pose proof (f_equal (λ p, heap p.2) Heq) as Hheap.
    cbn [snd this heap cameras set_main] in Hthis, Hheap.
    rewrite <- Hthis, <- Hheap. unfold added_world, added_camera, shut_down.
    proj. eexists _, _. split; [reflexivity|].
    split; [apply lookup_insert_eq|done].
Qed.

Lemma restart_continues_the_counter_witness :
  is_Some (scene (this four_cameras))
  ∧ systems (this four_cameras) = Some (sys example_scene)
  ∧ allocated four_cameras
  ∧ settings_cameras (sys example_scene) = None
  ∧ ∃ w',
      start example_ext (shutdown example_ext four_cameras).2 = (Normal tt, w')
      ∧ length (cameras (this w')) = boot_count (sys example_scene)
      ∧ main (this w') = cameras (this w') !! 0%nat
      ∧ nextID (this w')
        = shifted (nextID (this four_cameras)) (boot_count (sys example_scene))
      ∧ ∃ r c,
          cameras (this w') = [r]
          ∧ heap w' !! r = Some c
          ∧ Camera.id c = nextID (this four_cameras).
Proof.
  assert (Hsc : is_Some (scene (this four_cameras)))
    by (apply (bool_decide_unpack _); vm_compute; exact I).
  assert (Hsy : systems (this four_cameras) = Some (sys example_scene))
    by (vm_compute; reflexivity).
  assert (Hcfg : settings_cameras (sys example_scene) = None) by reflexivity.
  split; [exact Hsc|]. split; [exact Hsy|].
  split; [exact four_cameras_allocated|]. split; [exact Hcfg|].
  destruct (restart_continues_the_counter example_ext four_cameras
              (sys example_scene) Hsc Hsy four_cameras_allocated)
    as (w' & H1 & H2 & H3 & H4 & H5).
  exists w'. split; [exact H1|]. split; [exact H2|]. split; [exact H3|].
  split; [exact H4|]. exact (H5 Hcfg).
Defined.

(** After a restart the one camera of the manager has the identity 16,
    the fifth. *)
Example restart_four_cameras :
  let w := (start example_ext (shutdown example_ext four_cameras).2).2 in
  cameras (this w) = [4%nat]
  ∧ Camera.id <$> heap w !! 4%nat = Some 16.
Proof. by vm_compute. Qed.


(** X17.  The manager of a Scene with no camera configuration, once
    constructed and booted, has exactly one camera, of the size of the
    game; the camera has the identity 1 and is [main], the counter is
    2, and the manager has subscribed to [boot], [start] and
    [destroy]. *)
Theorem first_boot ext scene :
  settings_cameras (sys scene) = None →
  ∃ r w' c,
    boot ext (initial scene) = (Normal tt, w')
    ∧ cameras (this w') = [r]
    ∧ main (this w') = Some r
    ∧ heap w' !! r = Some c
    ∧ Camera.id c = 1
    ∧ nextID (this w') = 2
    ∧ calls w'
      = [CallOnce sig_boot on_boot; CallOn sig_start on_start;
         CallNew r 0%Q 0%Q (game_config_width (sys scene))
           (game_config_height (sys scene));
         CallSetName r EmptyString;
         CallSetScene r (Some scene);
         CallOnce sig_destroy on_destroy].
Proof.
  intros Hcfg.
  change (initial scene)
    with (mkWorld (mk (Some scene) (Some (sys scene)) 1 [] None 1%Q) ∅
            [CallOnce sig_boot on_boot; CallOn sig_start on_start]).
  unfold boot. mstep. mstep. rewrite Hcfg.
  mstep. rewrite bind_eq, add_normal by (left; proj; eauto).
  cbv beta iota. mstep. unfold added_world, added_camera. proj.
  mstep. mstep. mstep. rewrite call_eq. proj.
  eexists _, _, _. split; [reflexivity|]. proj.
  split; [done|]. split; [done|].
  split; [apply lookup_insert_eq|]. by repeat split.
Qed.

Lemma first_boot_witness :
  settings_cameras (sys example_scene) = None
  ∧ ∃ r w' c,
      boot example_ext (initial example_scene) = (Normal tt, w')
      ∧ cameras (this w') = [r]
      ∧ main (this w') = Some r
      ∧ heap w' !! r = Some c
      ∧ Camera.id c = 1
      ∧ nextID (this w') = 2
      ∧ calls w'
        = [CallOnce sig_boot on_boot; CallOn sig_start on_start;
           CallNew r 0%Q 0%Q (game_config_width (sys example_scene))
             (game_config_height (sys example_scene));
           CallSetName r EmptyString;
           CallSetScene r (Some example_scene);
           CallOnce sig_destroy on_destroy].
Proof.
  split; [reflexivity|].
  exact (first_boot example_ext example_scene eq_refl).
Defined.

(** ** The quick-access properties *)



(** Of four cameras, [camera4] is the last one and [camera5] is
    [undefined]. *)
Example getters_of_four :
  (camera4 four_cameras).1 = Normal (Some 3%nat)
  ∧ (camera5 four_cameras).1 = Normal None
  ∧ (camera10 four_cameras).1 = Normal None.
Proof. by vm_compute. Qed.

(** ** A manager in use *)

(** X19.  In a manager in use no camera is twice in the [cameras]
    array: [add] creates a new camera object, and [addExisting] refuses
    a camera that is in the array. *)
Theorem cameras_never_repeat ext w :
  reachable ext w →
  NoDup (cameras (this w))
  ∧ ∀ r, r ∈ cameras (this w) → is_Some (heap w !! r).
Proof.
  intros Hr. destruct (reachable_consistent ext w Hr) as (_ & Hal & Hnd & _).
  by split.
Qed.

Lemma cameras_never_repeat_witness :
  reachable example_ext four_cameras
  ∧ NoDup (cameras (this four_cameras))
  ∧ ∀ r, r ∈ cameras (this four_cameras) → is_Some (heap four_cameras !! r).
Proof.
  split; [exact four_cameras_reachable|].
  exact (cameras_never_repeat example_ext four_cameras four_cameras_reachable).
Defined.

(** X20.  In a manager in use (constructed, not destroyed, and given
    camera objects where cameras are expected) no method raises: every
    call returns, and leaves a manager in use. *)
Theorem operations_return_in_use ext w op :
  reachable ext w →
  op_ok w op →
  ∃ v w', exec ext op w = (Normal v, w') ∧ reachable ext w'.
Proof.
  intros Hr Hop.
  destruct (exec_consistent ext op w (reachable_consistent ext w Hr) Hop)
    as (v & w' & Heq & _).
  exists v, w'. split; [done|].
  replace w' with (exec ext op w).2 by (by rewrite Heq).
  by apply reachable_step.
Qed.

Lemma operations_return_in_use_witness :
  reachable example_ext four_cameras
  ∧ op_ok four_cameras OpResetAll
  ∧ ∃ v w',
      exec example_ext OpResetAll four_cameras = (Normal v, w')
      ∧ reachable example_ext w'.
Proof.
  split; [exact four_cameras_reachable|]. split; [exact I|].
  exact (operations_return_in_use example_ext four_cameras OpResetAll
           four_cameras_reachable I).
Defined.

(** ** When the identities run out *)






(** The last identities of thirty-four cameras. *)
Example identities_of_34 :
  drop 30 (assigned_ids example_ext (adds 34) (initial example_scene))
  = [2 ^ 30; - 2 ^ 31; 0; 0].
Proof. by vm_compute. Qed.

(** ** The cameras of a configuration *)

Lemma config_calls_eq s w r cameraConfig :
  scene (this w) = Some s →
  [CallNew r
     (default 0%Q (Some (GetFastValue (cfg_x cameraConfig) 0%Q)))
     (default 0%Q (Some (GetFastValue (cfg_y cameraConfig) 0%Q)))
     (host_width w
        (Some (GetFastValue (cfg_width cameraConfig)
                 (game_config_width (sys s)))))
     (host_height w
        (Some (GetFastValue (cfg_height cameraConfig)
                 (game_config_height (sys s)))));
   CallSetName r (default EmptyString None);
   CallSetScene r (scene (this w))]
  ++ configure_calls (game_config_width (sys s)) (game_config_height (sys s))
       r cameraConfig
  = config_calls s r cameraConfig.
Proof.
  intros Hs. unfold config_calls, configure_calls, host_width, host_height.
  rewrite Hs. reflexivity.
Qed.

Lemma config_camera_eq ext s w cameraConfig :
  scene (this w) = Some s →
  configured ext (game_config_width (sys s)) (game_config_height (sys s))
    cameraConfig
    (added_camera ext w
       (Some (GetFastValue (cfg_x cameraConfig) 0%Q))
       (Some (GetFastValue (cfg_y cameraConfig) 0%Q))
       (Some (GetFastValue (cfg_width cameraConfig)
                (game_config_width (sys s))))
       (Some (GetFastValue (cfg_height cameraConfig)
                (game_config_height (sys s))))
       None)
  = config_camera ext s (nextID (this w)) cameraConfig.
Proof.
  intros Hs. unfold config_camera, added_camera, host_width, host_height.
  rewrite Hs. reflexivity.
Qed.

(** The loop of [fromJSON]: one camera for each configuration object,
    in the order of the objects. *)
Lemma fromJSON_loop_configures ext s cs :
  ∀ w,
    scene (this w) = Some s →
    ∃ w' new,
      for_each cs
        (fromJSON_body ext (game_config_width (sys s))
           (game_config_height (sys s))) w
      = (Normal tt, w')
      ∧ cameras (this w') = cameras (this w) ++ new
      ∧ length new = length cs
      ∧ (∀ i r cameraConfig,
           new !! i = Some r →
           cs !! i = Some cameraConfig →
           heap w !! r = None
           ∧ heap w' !! r
             = Some (config_camera ext s (shifted (nextID (this w)) i)
                       cameraConfig))
      ∧ (∀ r, is_Some (heap w !! r) → heap w' !! r = heap w !! r)
      ∧ calls w' = calls w ++ concat (zip_with (config_calls s) new cs)
      ∧ extends (length cs) w w'.
Proof.
  induction cs as [|c cs IH]; intros w Hs.
  - exists w, []. split; [done|]. split; [by rewrite app_nil_r|].
    split; [done|]. split; [by intros i r cfg ?|]. split; [done|].
    split; [by rewrite app_nil_r|]. apply extends_refl.
  - cbn [for_each].
    pose proof (fromJSON_body_extends ext (game_config_width (sys s))
                  (game_config_height (sys s)) c w) as He.
    rewrite bind_eq. rewrite fromJSON_body_normal in *. cbv zeta in *.
    cbv beta iota. cbn [snd] in He.
    rewrite (config_camera_eq ext s w c Hs) in *.
    match type of He with
    | extends _ _ ?w1 => set (w1' := w1) in *
    end.
    assert (Hfresh : heap w !! fresh (dom (heap w)) = None)
      by apply not_elem_of_dom, is_fresh.
    destruct (IH w1') as (w' & new & Heq & Hc & Hl & Hn & Hf & Hcs & He');
      [by subst w1'; unfold added_world; proj|].
    exists w', (fresh (dom (heap w)) :: new).
    split; [exact Heq|]. split.
    { rewrite Hc. subst w1'. unfold added_world. proj.
      by rewrite <- (assoc_L (++)). }
    split; [by rewrite length_cons, Hl|]. split.
    { intros [|i] r cfg Hr Hcfg; cbn in Hr, Hcfg.
      - injection Hr as <-. injection Hcfg as <-. split; [done|].
        rewrite Hf; subst w1'; proj; rewrite lookup_insert_eq; [done|eauto].
      - destruct (Hn i r cfg Hr Hcfg) as [Hnone Hsome].
        subst w1'. unfold added_world in *. proj.
        cbn [heap this nextID] in Hnone, Hsome. split.
        + apply lookup_insert_None in Hnone. tauto.
        + rewrite Hsome. by rewrite shifted_S. }
    split.
    { intros r Hr. rewrite Hf.
      - subst w1'. proj. rewrite lookup_insert_ne; [done|].
        intros <-. rewrite Hfresh in Hr. by destruct Hr.
      - subst w1'. proj. rewrite lookup_insert_ne; [done|].
        intros <-. rewrite Hfresh in Hr. by destruct Hr. }
    split.
    { rewrite Hcs. subst w1'. unfold added_world. proj. cbn [zip_with concat].
      rewrite <- (config_calls_eq s w _ c Hs).
      by rewrite <- !(assoc_L (++)). }
    apply (extends_trans 1 (length cs) _ _ _ He He').
Qed.

Lemma fromJSON_configures ext config w s :
  scene (this w) = Some s →
  ∃ w' new,
    fromJSON ext config w = (Normal tt, w')
    ∧ cameras (this w') = cameras (this w) ++ new
    ∧ length new = length (config_list config)
    ∧ (∀ i r cameraConfig,
         new !! i = Some r →
         config_list config !! i = Some cameraConfig →
         heap w !! r = None
         ∧ heap w' !! r
           = Some (config_camera ext s (shifted (nextID (this w)) i)
                     cameraConfig))
    ∧ (∀ r, is_Some (heap w !! r) → heap w' !! r = heap w !! r)
    ∧ calls w' = calls w ++ concat (zip_with (config_calls s) new
                                       (config_list config))
    ∧ extends (length (config_list config)) w w'.
Proof.
  intros Hs. unfold fromJSON. cbv zeta.
  rewrite bind_eq, (game_config_ok w s) by done. cbv beta iota.
  destruct config as [c|cs]; by apply fromJSON_loop_configures.
Qed.

(** X11.  [fromJSON], on a manager that has its Scene, creates one
    camera for each configuration object and appends them to the array
    in the order of the objects: the [i]-th new camera is a new object,
    made from the [i]-th configuration object with the counter shifted
    [i] times as its identity, and the calls made are those for the
    first object, then those for the second, and so on.  The counter is
    shifted once for each object; [main], the rest of the manager and
    the camera objects that existed are not changed. *)
Theorem fromJSON_registers_each_config ext config w s :
  scene (this w) = Some s →
  ∃ w' new,
    fromJSON ext config w = (Normal tt, w')
    ∧ cameras (this w') = cameras (this w) ++ new
    ∧ length new = length (config_list config)
    ∧ (∀ i r cameraConfig,
         new !! i = Some r →
         config_list config !! i = Some cameraConfig →
         heap w !! r = None
         ∧ heap w' !! r
           = Some (config_camera ext s (shifted (nextID (this w)) i)
                     cameraConfig))
    ∧ (∀ r, is_Some (heap w !! r) → heap w' !! r = heap w !! r)
    ∧ calls w' = calls w ++ concat (zip_with (config_calls s) new
                                       (config_list config))
    ∧ extends (length (config_list config)) w w'.
Proof.
  intros Hs. unfold fromJSON. cbv zeta.
  rewrite bind_eq, (game_config_ok w s) by done. cbv beta iota.
  destruct config as [c|cs]; cbn [config_list].
  - by apply (fromJSON_loop_configures ext s [c]).
  - by apply fromJSON_loop_configures.
Qed.

Lemma fromJSON_registers_each_config_witness :
  scene (this four_cameras) = Some example_scene
  ∧ ∃ w' new,
      fromJSON example_ext (ConfigArray [viewport_config; hud_config])
        four_cameras
      = (Normal tt, w')
      ∧ cameras (this w') = cameras (this four_cameras) ++ new
      ∧ length new
        = length (config_list (ConfigArray [viewport_config; hud_config]))
      ∧ (∀ i r cameraConfig,
           new !! i = Some r →
           config_list (ConfigArray [viewport_config; hud_config]) !! i
           = Some cameraConfig →
           heap four_cameras !! r = None
           ∧ heap w' !! r
             = Some (config_camera example_ext example_scene
                       (shifted (nextID (this four_cameras)) i) cameraConfig))
      ∧ (∀ r, is_Some (heap four_cameras !! r) →
              heap w' !! r = heap four_cameras !! r)
      ∧ calls w'
        = calls four_cameras
          ++ concat (zip_with (config_calls example_scene) new
                       (config_list (ConfigArray [viewport_config; hud_config])))
      ∧ extends
          (length (config_list (ConfigArray [viewport_config; hud_config])))
          four_cameras w'.
Proof.
  assert (Hs : scene (this four_cameras) = Some example_scene)
    by (vm_compute; reflexivity).
  split; [exact Hs|].
  exact (fromJSON_registers_each_config example_ext
           (ConfigArray [viewport_config; hud_config]) four_cameras
           example_scene Hs).
Defined.

(** The two cameras [fromJSON] makes of [viewport_config] and
    [hud_config] on [four_cameras], in this order: the first has the
    position, the size and the zoom of the first object and the identity
    16, the second the name of the second object and the identity 32. *)
Example fromJSON_in_order :
  let w := (fromJSON example_ext (ConfigArray [viewport_config; hud_config])
              four_cameras).2 in
  cameras (this w) = [0%nat; 1%nat; 2%nat; 3%nat; 4%nat; 5%nat]
  ∧ heap w !! 4%nat
    = Some (config_camera example_ext example_scene 16 viewport_config)
  ∧ heap w !! 5%nat
    = Some (config_camera example_ext example_scene 32 hud_config)
  ∧ (Camera.x <$> heap w !! 4%nat) = Some 10%Q
  ∧ (Camera.zoom <$> heap w !! 4%nat) = Some 2%Q
  ∧ (Camera.name <$> heap w !! 5%nat) = Some "hud"%string.
Proof. by vm_compute. Qed.

(** ** The identities registered in a sequence of operations *)

Lemma filter_notin_nil (l l' : list ref) :
  (∀ r, r ∈ l' → r ∈ l) →
  List.filter (λ r, bool_decide (r ∉ l)) l' = [].
Proof.
  induction l' as [|r l' IH]; intros Hl; [done|]. cbn [List.filter].
  rewrite bool_decide_eq_false_2.
  - apply IH. intros r' Hr'. apply Hl. by right.
  - intros Hr. apply Hr, Hl. by left.
Qed.

Lemma filter_notin_all (l new : list ref) :
  (∀ r, r ∈ new → r ∉ l) →
  List.filter (λ r, bool_decide (r ∉ l)) new = new.
Proof.
  induction new as [|r new IH]; intros Hl; [done|]. cbn [List.filter].
  rewrite bool_decide_eq_true_2 by (apply Hl; by left).
  f_equal. apply IH. intros r' Hr'. apply Hl. by right.
Qed.

Lemma registered_since_none w w' :
  (∀ r, r ∈ cameras (this w') → r ∈ cameras (this w)) →
  registered_since w w' = [].
Proof. apply filter_notin_nil. Qed.

Lemma registered_since_app w w' new :
  cameras (this w') = cameras (this w) ++ new →
  (∀ r, r ∈ new → r ∉ cameras (this w)) →
  registered_since w w' = new.
Proof.
  intros Hc Hn. unfold registered_since. rewrite Hc, List.filter_app.
  rewrite filter_notin_nil by done. by rewrite filter_notin_all.
Qed.

(** The operations that only look at the manager, or make or change a
    camera object, leave the manager as it is. *)
Lemma exec_keeps_this {X} (g : t → X) ext op :
  match op with
  | OpNewCamera _ _ _ _ | OpChangeCamera _ _ | OpGetCamera _
  | OpGetCamerasBelowPointer _ | OpRender _ _ _ | OpUpdate _ _
  | OpResize _ _ => True
  | _ => False
  end →
  keeps (λ w, g (this w)) (exec ext op).
Proof.
  destruct op; intros Hop; try (destruct Hop; fail); cbn [exec].
  - apply keeps_bind; [apply (keeps_this_alloc g)|intros r].
    apply keeps_bind; [apply (keeps_this_call g)|intros _].
    apply keeps_ret.
  - apply keeps_bind; [apply (keeps_this_modify g)|intros _].
    apply keeps_ret.
  - apply keeps_bind; [|intros; apply keeps_ret].
    apply keeps_bind; [apply keeps_get_this|intros m].
    apply keeps_getCamera_loop.
  - apply keeps_bind; [|intros; apply keeps_ret].
    apply keeps_bind; [apply keeps_get_this|intros m].
    apply keeps_getCamerasBelowPointer_loop.
  - apply keeps_bind; [apply (keeps_this_render g)|intros; apply keeps_ret].
  - apply keeps_bind; [apply (keeps_this_update g)|intros; apply keeps_ret].
  - apply keeps_bind; [apply (keeps_this_resize g)|intros; apply keeps_ret].
Qed.

Lemma config_camera_id ext s z cameraConfig :
  id_immutable ext → Camera.id (config_camera ext s z cameraConfig) = z.
Proof.
  intros [Hbg Hb]. unfold config_camera, configured.
  destruct (cfg_backgroundColor cameraConfig) as [[|a c]|],
    (cfg_bounds cameraConfig) as [b|].
  all: rewrite ?Hb, ?Hbg; reflexivity.
Qed.

Lemma config_ids ext s z (h h0 : gmap ref Camera.t) new cs :
  id_immutable ext →
  length new = length cs →
  (∀ i r cameraConfig,
     new !! i = Some r →
     cs !! i = Some cameraConfig →
     h0 !! r = None
     ∧ h !! r = Some (config_camera ext s (shifted z i) cameraConfig)) →
  (λ r, Camera.id <$> h !! r) <$> new
  = (λ i, Some (shifted z i)) <$> seq 0 (length cs).
Proof.
  intros Hid Hl Hn. apply list_eq. intros i. rewrite !list_lookup_fmap.
  destruct (decide (i < length cs)%nat) as [Hi|Hi].
  - destruct (lookup_lt_is_Some_2 cs i Hi) as [cfg Hcfg].
    destruct (lookup_lt_is_Some_2 new i ltac:(lia)) as [r Hr].
    rewrite Hr, lookup_seq_lt by done. cbn.
    destruct (Hn i r cfg Hr Hcfg) as [_ ->]. cbn.
    by rewrite config_camera_id.
  - rewrite (lookup_ge_None_2 new), (lookup_ge_None_2 (seq _ _)); [done| |lia].
    rewrite length_seq. lia.
Qed.

(** What [boot] registers. *)
Lemma boot_registers ext w sc s :
  id_immutable ext →
  scene (this w) = Some sc →
  systems (this w) = Some s →
  ∃ w1 new,
    boot ext w
    = (Normal tt,
       mkWorld (set_main (cameras (this w1) !! 0%nat) (this w1)) (heap w1)
         (calls w1 ++ [CallOnce sig_destroy on_destroy]))
    ∧ cameras (this w1) = cameras (this w) ++ new
    ∧ (∀ r, r ∈ new → heap w !! r = None)
    ∧ (λ r, Camera.id <$> heap w1 !! r) <$> new
      = (λ i, Some (shifted (nextID (this w)) i)) <$> seq 0 (boot_count s)
    ∧ nextID (this w1) = shifted (nextID (this w)) (boot_count s)
    ∧ systems (this w1) = Some s.
Proof.
  intros Hid Hsc Hsy. unfold boot, boot_count. mstep. rewrite Hsy. mstep.
  destruct (settings_cameras s) as [config|].
  - destruct (fromJSON_configures ext config w sc Hsc)
      as (w1 & new & Heq & Hc & Hl & Hn & _ & _ & He).
    destruct He as (_ & _ & _ & _ & _ & Hz & _ & _ & Hsy1 & _).
    exists w1, new. split.
    { rewrite bind_eq, Heq. cbv beta iota. mstep. mstep.
      rewrite Hsy1, Hsy. mstep. by rewrite call_eq. }
    split; [done|]. split.
    { intros r [i Hi]%list_elem_of_lookup_1.
      destruct (lookup_lt_is_Some_2 (config_list config) i) as [cfg Hcfg].
      { rewrite <- Hl. by eapply lookup_lt_Some. }
      by destruct (Hn i r cfg Hi Hcfg). }
    split; [by eapply config_ids|]. split; [done|]. by rewrite Hsy1.
  - exists (added_world ext w None None None None None None),
      [fresh (dom (heap w))].
    split.
    { mstep. rewrite bind_eq, add_normal by (left; rewrite Hsc; eauto).
      cbv beta iota. mstep. unfold added_world. proj.
      mstep. mstep. rewrite Hsy. mstep. by rewrite call_eq. }
    unfold added_world. proj. split; [done|]. split.
    { intros r ->%list_elem_of_singleton. apply not_elem_of_dom, is_fresh. }
    split; [|done]. cbn. by rewrite lookup_insert_eq.
Qed.

Lemma start_started ext w c s :
  main (this w) = Some c →
  systems (this w) = Some s →
  start ext w
  = (Normal tt,
     mkWorld (this w) (heap w)
       (calls w
        ++ [CallOn sig_update on_update; CallOnce sig_shutdown on_shutdown])).
Proof.
  intros Hm Hsy. unfold start. mstep. rewrite Hm.
  mstep. mstep. rewrite Hsy. mstep. mstep. rewrite call_eq. proj.
  by rewrite <- (assoc_L (++)).
Qed.

Lemma start_unset ext w wb s :
  main (this w) = None →
  boot ext w = (Normal tt, wb) →
  systems (this wb) = Some s →
  start ext w
  = (Normal tt,
     mkWorld (this wb) (heap wb)
       (calls wb
        ++ [CallOn sig_update on_update; CallOnce sig_shutdown on_shutdown])).
Proof.
  intros Hm Heq Hsy. unfold start. mstep. rewrite Hm.
  rewrite bind_eq, Heq. cbv beta iota. mstep. proj.
  rewrite Hsy. mstep. mstep. rewrite call_eq. proj.
  by rewrite <- (assoc_L (++)).
Qed.

Lemma allocated_fresh w r :
  allocated w → heap w !! r = None → r ∉ cameras (this w).
Proof. intros Hal Hr Hin. apply Hal in Hin. rewrite Hr in Hin. by destruct Hin. Qed.

(** What one operation registers: as many cameras as [to_register]
    says, with the successive values of the counter as identities. *)
Lemma exec_registers ext op w :
  id_immutable ext →
  consistent w →
  op_ok w op →
  restarts op = false →
  registered ext op w
  = (λ i, Some (shifted (nextID (this w)) i)) <$> seq 0 (to_register w op)
  ∧ nextID (this (exec ext op w).2)
    = shifted (nextID (this w)) (to_register w op).
Proof.
  intros Hid Hw Hop Hre.
  pose proof Hw as ([[sc Hsc] [s Hsy]] & Hal & Hnd & Hm).
  assert (Hnone : ∀ w',
    (exec ext op w).2 = w' →
    (∀ r, r ∈ cameras (this w') → r ∈ cameras (this w)) →
    nextID (this w') = nextID (this w) →
    to_register w op = 0%nat →
    registered ext op w
    = (λ i, Some (shifted (nextID (this w)) i)) <$> seq 0 (to_register w op)
    ∧ nextID (this (exec ext op w).2)
      = shifted (nextID (this w)) (to_register w op)).
  { intros w' Hex Hsub Hz H0. unfold registered. cbv zeta.
    rewrite Hex, H0, registered_since_none by done. by split. }
  assert (Hsome : ∀ w' new n,
    (exec ext op w).2 = w' →
    cameras (this w') = cameras (this w) ++ new →
    (∀ r, r ∈ new → r ∉ cameras (this w)) →
    (λ r, Camera.id <$> heap w' !! r) <$> new
    = (λ i, Some (shifted (nextID (this w)) i)) <$> seq 0 n →
    nextID (this w') = shifted (nextID (this w)) n →
    to_register w op = n →
    registered ext op w
    = (λ i, Some (shifted (nextID (this w)) i)) <$> seq 0 (to_register w op)
    ∧ nextID (this (exec ext op w).2)
      = shifted (nextID (this w)) (to_register w op)).
  { intros w' new n Hex Hc Hn Hids Hz Hreg. unfold registered. cbv zeta.
    rewrite Hex, Hreg, (registered_since_app w w' new) by done. by split. }
  assert (Hthis : ∀ w',
    (exec ext op w).2 = w' →
    this w' = this w →
    to_register w op = 0%nat →
    registered ext op w
    = (λ i, Some (shifted (nextID (this w)) i)) <$> seq 0 (to_register w op)
    ∧ nextID (this (exec ext op w).2)
      = shifted (nextID (this w)) (to_register w op)).
  { intros w' Hex Ht H0. apply (Hnone w'); [done| | |done]; by rewrite Ht. }
  destruct op; try discriminate Hre; cbn [op_ok] in Hop.
  - eapply Hthis; [done| |done]. by apply (exec_keeps_this (λ m, m)).
  - eapply Hthis; [done| |done]. by apply (exec_keeps_this (λ m, m)).
  - (* add *)
    eapply (Hsome _ [fresh (dom (heap w))] 1%nat).
    + cbn [exec]. rewrite bind_eq, add_normal by (left; eauto).
      cbv beta iota. by rewrite ret_eq.
    + done.
    + intros r ->%list_elem_of_singleton. by apply consistent_fresh.
    + unfold added_world. proj. cbn. by rewrite lookup_insert_eq.
    + done.
    + done.
  - (* addExisting *)
    destruct (decide (camera ∈ cameras (this w))) as [Hin|Hin].
    + eapply Hthis.
      * cbn [exec]. rewrite bind_eq, addExisting_present by done.
        cbv beta iota. by rewrite ret_eq.
      * done.
      * cbn [to_register]. by rewrite decide_True.
    + eapply (Hsome _ [camera] 1%nat).
      * cbn [exec]. rewrite bind_eq, addExisting_absent by done.
        cbv beta iota. by rewrite ret_eq.
      * done.
      * by intros r ->%list_elem_of_singleton.
      * unfold registered_world. proj. cbn. destruct Hop as [c Hc].
        by rewrite lookup_alter_eq, Hc.
      * done.
      * cbn [to_register]. by rewrite decide_False.
  - (* fromJSON *)
    destruct (fromJSON_configures ext config w sc Hsc)
      as (w1 & new & Heq & Hc & Hl & Hn & _ & _ & He).
    destruct He as (_ & _ & _ & _ & _ & Hz & _).
    eapply (Hsome w1 new).
    + cbn [exec]. rewrite bind_eq, Heq. cbv beta iota. by rewrite ret_eq.
    + done.
    + intros r [i Hi]%list_elem_of_lookup_1. apply allocated_fresh; [done|].
      destruct (lookup_lt_is_Some_2 (config_list config) i) as [cfg Hcfg].
      { rewrite <- Hl. by eapply lookup_lt_Some. }
      by destruct (Hn i r cfg Hi Hcfg).
    + by eapply config_ids.
    + done.
    + done.
  - eapply Hthis; [done| |done]. by apply (exec_keeps_this (λ m, m)).
  - eapply Hthis; [done| |done]. by apply (exec_keeps_this (λ m, m)).
  - (* remove *)
    destruct (decide (camera ∈ cameras (this w)
                      ∧ (2 ≤ length (cameras (this w)))%nat)) as [[Hin Hl]|Hn].
    + eapply (Hnone (removed_world w camera)).
      * cbn [exec]. rewrite bind_eq, remove_removes by done.
        cbv beta iota. by rewrite ret_eq.
      * unfold removed_world. proj. intros r Hr.
        destruct (indexOf_present _ _ Hin) as [_ Hi].
        rewrite (delete_Permutation _ _ _ Hi). by right.
      * done.
      * done.
    + eapply Hthis; [|reflexivity|done].
      cbn [exec]. rewrite bind_eq, remove_ignored; [by rewrite ret_eq|].
      destruct (decide (camera ∈ cameras (this w))) as [Hin|Hin]; [|by left].
      right. destruct (cameras (this w)) as [|c [|c' l]]; simpl in *.
      * by apply elem_of_nil in Hin.
      * by apply list_elem_of_singleton in Hin as ->.
      * exfalso. apply Hn. split; [done|lia].
  - eapply Hthis; [done| |done]. by apply (exec_keeps_this (λ m, m)).
  - eapply Hthis; [done| |done]. by apply (exec_keeps_this (λ m, m)).
  - eapply Hthis; [done| |done]. by apply (exec_keeps_this (λ m, m)).
  - (* boot *)
    destruct (boot_registers ext w sc s Hid Hsc Hsy)
      as (w1 & new & Heq & Hc & Hn & Hids & Hz & _).
    eapply (Hsome _ new (boot_count s)).
    + cbn [exec]. rewrite bind_eq, Heq. cbv beta iota. by rewrite ret_eq.
    + done.
    + intros r Hr. apply allocated_fresh; auto.
    + done.
    + done.
    + cbn [to_register]. by rewrite Hsy.
  - (* start *)
    destruct (main (this w)) as [c|] eqn:Hmain.
    + eapply Hthis.
      * cbn [exec]. rewrite bind_eq, (start_started ext w c s) by done.
        cbv beta iota. by rewrite ret_eq.
      * done.
      * cbn [to_register]. by rewrite Hmain.
    + destruct (boot_registers ext w sc s Hid Hsc Hsy)
        as (w1 & new & Heq & Hc & Hn & Hids & Hz & Hsy1).
      eapply (Hsome _ new (boot_count s)).
      * cbn [exec]. rewrite bind_eq, (start_unset ext w _ s Hmain Heq) by done.
        cbv beta iota. by rewrite ret_eq.
      * done.
      * intros r Hr. apply allocated_fresh; auto.
      * done.
      * done.
      * cbn [to_register]. by rewrite Hmain, Hsy.
  - (* shutdown *)
    eapply (Hnone (shut_down ext w)).
    + cbn [exec]. rewrite bind_eq, shutdown_normal by eauto.
      cbv beta iota. by rewrite ret_eq.
    + unfold shut_down. proj. by intros r ?%elem_of_nil.
    + done.
    + done.
  - done.
Qed.

(** The identities registered in a sequence of operations without
    [resetAll] are the successive values of the counter. *)
Lemma registered_ids_shifted ext ops :
  id_immutable ext →
  ∀ w,
    consistent w →
    ops_ok ext ops w →
    forallb (λ op, negb (restarts op)) ops = true →
    registered_ids ext ops w
    = (λ i, Some (shifted (nextID (this w)) i))
      <$> seq 0 (registrations_of ext ops w).
Proof.
  intros Hid. induction ops as [|op ops IH]; intros w Hw Hops Hre; [done|].
  destruct Hops as [Hop Hops].
  cbn [forallb] in Hre. apply andb_true_iff in Hre as [Hre1 Hre].
  apply negb_true_iff in Hre1.
  destruct (exec_registers ext op w Hid Hw Hop Hre1) as [Hr Hz].
  destruct (exec_consistent ext op w Hw Hop) as (a & w' & Heq & Hw').
  cbn [registered_ids registrations_of].
  rewrite Hr, IH; [|by rewrite Heq|done|done].
  rewrite Hz, seq_app, fmap_app. f_equal.
  assert (Hseq : ∀ j n, seq (0 + j) n = Nat.add j <$> seq 0 n).
  { intros j n. rewrite fmap_add_seq. f_equal. lia. }
  rewrite Hseq, <- list_fmap_compose.
  apply list_fmap_ext. intros i j _. unfold compose. by rewrite shifted_add.
Qed.

(** What [resetAll] registers. *)
Lemma resetAll_registers ext w :
  consistent w →
  registered ext OpResetAll w = [Some 1]
  ∧ nextID (this (exec ext OpResetAll w).2) = 2 ^ 1
  ∧ consistent (exec ext OpResetAll w).2.
Proof.
  intros Hw. pose proof Hw as ([Hsc Hsy] & Hal & Hnd & Hm).
  unfold registered. cbv zeta. cbn [exec].
  rewrite bind_eq, resetAll_normal by done. cbv beta iota.
  rewrite ret_eq. cbn [snd].
  split; [|split; [done|by apply reset_world_consistent]].
  unfold registered_since, reset_world, added_world. proj.
  rewrite destroyed_dom. cbn [List.filter app].
  rewrite bool_decide_eq_true_2 by (by apply consistent_fresh).
  cbn. by rewrite lookup_insert_eq.
Qed.

Lemma four_cameras_consistent : consistent four_cameras.
Proof. exact (reachable_consistent _ _ four_cameras_reachable). Qed.

Lemma example_ext_id_immutable : id_immutable example_ext.
Proof. split; intros; reflexivity. Qed.

(** C2.  Take a manager in use whose counter is [2^k], as it is for
    [k = 0] when the manager is constructed, or a manager on which
    [resetAll] is called first; and any sequence of operations after
    that without another [resetAll], which registers cameras through
    [add], [addExisting], [fromJSON], [boot] and [start], with removals
    and shutdowns in between.  As long as the identities up to [2^30]
    last, the cameras registered get [2^k], [2^(k+1)], and so on, one
    identity for each camera the operations are to register: the
    identities are pairwise distinct powers of two.  No removal gives an
    identity back: [remove] leaves the counter as it is. *)
Theorem identities_are_distinct_powers_of_two ext init ops w k :
  id_immutable ext →
  consistent w →
  (init = [] ∧ 0 ≤ k ∧ nextID (this w) = 2 ^ k)
  ∨ (init = [OpResetAll] ∧ k = 0) →
  ops_ok ext (init ++ ops) w →
  forallb (λ op, negb (restarts op)) ops = true →
  k + Z.of_nat (registrations_of ext (init ++ ops) w) ≤ 31 →
  registered_ids ext (init ++ ops) w
  = (λ i, Some (2 ^ (k + Z.of_nat i)))
    <$> seq 0 (registrations_of ext (init ++ ops) w)
  ∧ NoDup (registered_ids ext (init ++ ops) w)
  ∧ ∀ camera, nextID (this (remove camera w).2) = nextID (this w).
Proof.
  intros Hid Hw Hinit Hops Hre Hn.
  assert (Heq :
    registered_ids ext (init ++ ops) w
    = (λ i, Some (2 ^ (k + Z.of_nat i)))
      <$> seq 0 (registrations_of ext (init ++ ops) w)).
  { destruct Hinit as [(-> & Hk & Hz)|[-> ->]]; cbn [app] in *.
    - rewrite (registered_ids_shifted ext ops Hid w Hw Hops Hre).
      apply list_fmap_ext. intros i j Hj%lookup_seq. rewrite Hz.
      f_equal. apply shifted_pow2; [done|]. lia.
    - destruct Hops as [_ Hops].
      destruct (resetAll_registers ext w Hw) as (Hr & Hz & Hw').
      cbn [registered_ids registrations_of to_register] in *.
      rewrite Hr, (registered_ids_shifted ext ops Hid _ Hw' Hops Hre).
      cbn [Nat.add seq fmap list_fmap app]. f_equal.
      rewrite <- fmap_S_seq, <- list_fmap_compose.
      apply list_fmap_ext. intros i j Hj%lookup_seq. unfold compose.
      rewrite Hz. f_equal. rewrite shifted_pow2 by lia. f_equal. lia. }
  split; [exact Heq|]. split; [|intros camera; apply keeps_nextID_remove].
  rewrite Heq. apply NoDup_fmap_2_strong; [|apply NoDup_seq].
  intros i j _ _ [= Hij]. apply Z.pow_inj_r in Hij; lia.
Qed.

Lemma identities_are_distinct_powers_of_two_witness :
  id_immutable example_ext
  ∧ consistent four_cameras
  ∧ (@nil Op = [] ∧ 0 ≤ 4 ∧ nextID (this four_cameras) = 2 ^ 4
     ∨ @nil Op = [OpResetAll] ∧ 4 = 0)
  ∧ ops_ok example_ext ([] ++ mixed_registrations) four_cameras
  ∧ forallb (λ op, negb (restarts op)) mixed_registrations = true
  ∧ 4 + Z.of_nat
          (registrations_of example_ext ([] ++ mixed_registrations)
             four_cameras)
    ≤ 31
  ∧ registered_ids example_ext ([] ++ mixed_registrations) four_cameras
    = (λ i, Some (2 ^ (4 + Z.of_nat i)))
      <$> seq 0 (registrations_of example_ext ([] ++ mixed_registrations)
                   four_cameras)
  ∧ NoDup (registered_ids example_ext ([] ++ mixed_registrations) four_cameras)
  ∧ ∀ camera,
      nextID (this (remove camera four_cameras).2) = nextID (this four_cameras).
Proof.
  assert (Hinit : @nil Op = [] ∧ 0 ≤ 4 ∧ nextID (this four_cameras) = 2 ^ 4
                  ∨ @nil Op = [OpResetAll] ∧ 4 = 0).
  { left. split; [reflexivity|]. split; [lia|]. vm_compute. reflexivity. }
  assert (Hops : ops_ok example_ext ([] ++ mixed_registrations) four_cameras)
    by (apply (bool_decide_unpack _); vm_compute; exact I).
  assert (Hre : forallb (λ op, negb (restarts op)) mixed_registrations = true)
    by (vm_compute; reflexivity).
  assert (Hn : 4 + Z.of_nat
                     (registrations_of example_ext ([] ++ mixed_registrations)
                        four_cameras)
               ≤ 31)
    by (apply (bool_decide_unpack _); vm_compute; exact I).
  split; [exact example_ext_id_immutable|].
  split; [exact four_cameras_consistent|].
  split; [exact Hinit|]. split; [exact Hops|]. split; [exact Hre|].
  split; [exact Hn|].
  exact (identities_are_distinct_powers_of_two example_ext []
           mixed_registrations four_cameras 4 example_ext_id_immutable
           four_cameras_consistent Hinit Hops Hre Hn).
Defined.

(** The twenty-seven identities of [mixed_registrations] on
    [four_cameras] run from 16 to [2^30]: 16 and 32 for the two cameras
    of [fromJSON], 64 for the camera of the program, 128 for the camera
    1, which had the identity 2 before it was removed, 256 and 512 for
    the cameras of [start] and [boot], and the rest for those of
    [add]. *)
Example mixed_registrations_ids :
  registrations_of example_ext mixed_registrations four_cameras = 27%nat
  ∧ take 6 (registered_ids example_ext mixed_registrations four_cameras)
    = [Some 16; Some 32; Some 64; Some 128; Some 256; Some 512]
  ∧ last (registered_ids example_ext mixed_registrations four_cameras)
    = Some (Some (2 ^ 30))
  ∧ (Camera.id <$> heap four_cameras !! 1%nat) = Some 2.
Proof. by vm_compute. Qed.

(** A sequence that starts with [resetAll]: the camera of [resetAll]
    has the identity 1, the next 2, whatever the counter was. *)
Example resetAll_then_add :
  registered_ids example_ext
    [OpResetAll; OpAdd None None None None None None; OpBoot] four_cameras
  = [Some 1; Some 2; Some 4].
Proof. by vm_compute. Qed.

(** ** [main] through the life of the manager *)




(** [main] of [four_cameras] through some operations: it stays the
    camera 0 under [add], [fromJSON] and a second [boot]; [remove] of
    the camera 0 makes the camera 1 [main], and [remove] of that one the
    camera 2; and after a shutdown [add] leaves it unset. *)
Example main_of_four :
  main (this (run example_ext (adds 2) four_cameras)) = Some 0%nat
  ∧ main (this (run example_ext [OpFromJSON (OneConfig hud_config); OpBoot]
                  four_cameras))
    = Some 0%nat
  ∧ main (this (run example_ext [OpRemove 0%nat] four_cameras)) = Some 1%nat
  ∧ main (this (run example_ext [OpRemove 0%nat; OpRemove 1%nat] four_cameras))
    = Some 2%nat
  ∧ main (this (run example_ext (OpShutdown :: adds 2) four_cameras)) = None.
Proof. by vm_compute. Qed.

(** The cameras of [boot] count: a manager that is booted and then
    given a camera with [add()] has registered the identities 1 and
    2. *)
Example boot_then_add :
  registered_ids example_ext [OpBoot; OpAdd None None None None None None]
    (initial example_scene)
  = [Some 1; Some 2]
  ∧ registered_ids example_ext [OpBoot; OpShutdown; OpStart]
      (initial configured_scene)
    = [Some 1; Some 2; Some 4; Some 8].
Proof. by vm_compute. Qed.
